(** * OpenGL3DScene: scene-state / transform pipeline and camera control

    A shallow embedding of [Source/SceneManager.cpp] and
    [Source/ViewManager.cpp].

    Conventions of the embedding.
    - C++ [float] and [double] values are idealised as real numbers ([R]);
      rounding is not modelled, so [static_cast<float>] is the identity.
    - C++ [int] is a 32-bit two's complement integer carried by [Z]; every
      arithmetic result is brought back into range with [int_wrap].
    - Member variables become record fields; every method is a function
      from the state before the call to the state after it.
    - Operations whose C++ behaviour is undefined (an array access out of
      bounds, a null pointer dereference) return [Undefined]; a loop that
      has not finished when its fuel is used up returns [Undefined
      OutOfFuel], and every method is proved to finish within the fuel it
      passes.
    - Calls into OpenGL and into the shader manager are recorded in call
      logs, in call order. *)

From Stdlib Require Import ZArith Reals Lra Lia.
From stdpp Require Import base option list strings gmap.

(** ** Machine integers *)

Module Machine.
Local Open Scope Z_scope.

Definition INT_MIN : Z := - 2 ^ 31.
Definition INT_MAX : Z := 2 ^ 31 - 1.

(** Conversion of a mathematical integer to [int] (two's complement). *)
Definition int_wrap (z : Z) : Z := (z + 2 ^ 31) mod 2 ^ 32 - 2 ^ 31.

(** [i++] on an [int]. *)
Definition int_incr (i : Z) : Z := int_wrap (i + 1).

(** Conversion of an [int] to [size_t] (64 bits), as done by the
    comparison [index < m_objectMaterials.size()]. *)
Definition size_t_of_int (i : Z) : Z := i mod 2 ^ 64.

Definition in_int (z : Z) : Prop := INT_MIN <= z <= INT_MAX.
End Machine.
Export Machine.

(** ** Outcomes of a call *)

Inductive fault : Type :=
  | OutOfBounds      (* array element outside the array *)
  | NullDereference  (* member call through a NULL pointer *)
  | OutOfFuel.       (* the model's loop bound was too small *)

Inductive outcome (A : Type) : Type :=
  | Done (a : A)
  | Undefined (f : fault).
Arguments Done {A} a.
Arguments Undefined {A} f.

#[export] Instance outcome_ret : MRet outcome := fun A a => Done a.
#[export] Instance outcome_bind : MBind outcome := fun A B k m =>
  match m with
  | Done a => k a
  | Undefined f => Undefined f
  end.

(** [while (cond) body], run for at most [fuel] iterations. *)
Fixpoint while {S : Type} (fuel : nat) (cond : S -> bool)
    (body : S -> outcome S) (s : S) : outcome S :=
  if cond s then
    match fuel with
    | O => Undefined OutOfFuel
    | S fuel' => s' ← body s; while fuel' cond body s'
    end
  else Done s.

(** [arr[i]] on a C array or a [std::vector]: defined inside the bounds
    only. *)
Definition array_get {A : Type} (arr : list A) (i : Z) : outcome A :=
  if (0 <=? i)%Z then
    match arr !! Z.to_nat i with
    | Some a => Done a
    | None => Undefined OutOfBounds
    end
  else Undefined OutOfBounds.

(** [arr[i] = a]. *)
Definition array_set {A : Type} (arr : list A) (i : Z) (a : A)
    : outcome (list A) :=
  if (0 <=? i)%Z && (i <? Z.of_nat (length arr))%Z
  then Done (<[Z.to_nat i := a]> arr)
  else Undefined OutOfBounds.

(** [a.compare(b) == 0] on [std::string]: [compare] orders strings
    lexicographically by character code and returns 0 exactly on equal
    strings. *)
Definition compare_is_0 (a b : string) : bool :=
  match String.compare a b with
  | Eq => true
  | _ => false
  end.

(** ** The GLM subset used by the scene manager

    Following GLM's sources: matrices are column-major, [m[i]] is the
    i-th column. *)

Module glm.
Local Open Scope R_scope.

Record vec2 : Type := Vec2 { x2 : R; y2 : R }.
Record vec3 : Type := Vec3 { x3 : R; y3 : R; z3 : R }.
Record vec4 : Type := Vec4 { x4 : R; y4 : R; z4 : R; w4 : R }.
Record mat4 : Type := Mat4 { col0 : vec4; col1 : vec4; col2 : vec4; col3 : vec4 }.

Definition vec4_add (a b : vec4) : vec4 :=
  Vec4 (x4 a + x4 b) (y4 a + y4 b) (z4 a + z4 b) (w4 a + w4 b).
Definition vec4_scale (a : vec4) (k : R) : vec4 :=
  Vec4 (x4 a * k) (y4 a * k) (z4 a * k) (w4 a * k).

Definition vec3_add (a b : vec3) : vec3 :=
  Vec3 (x3 a + x3 b) (y3 a + y3 b) (z3 a + z3 b).
Definition vec3_sub (a b : vec3) : vec3 :=
  Vec3 (x3 a - x3 b) (y3 a - y3 b) (z3 a - z3 b).
Definition vec3_scale (a : vec3) (k : R) : vec3 :=
  Vec3 (x3 a * k) (y3 a * k) (z3 a * k).
Definition dot (a b : vec3) : R := x3 a * x3 b + y3 a * y3 b + z3 a * z3 b.
Definition cross (a b : vec3) : vec3 :=
  Vec3 (y3 a * z3 b - y3 b * z3 a)
       (z3 a * x3 b - z3 b * x3 a)
       (x3 a * y3 b - x3 b * y3 a).

(** [glm::normalize(v) = v * inversesqrt(dot(v, v))]. *)
Definition normalize (v : vec3) : vec3 := vec3_scale v (/ sqrt (dot v v)).

(** [glm::radians]. *)
Definition radians (degrees : R) : R := degrees * (PI / 180).

(** [glm::mat4(1.0f)]. *)
Definition mat4_identity : mat4 :=
  Mat4 (Vec4 1 0 0 0) (Vec4 0 1 0 0) (Vec4 0 0 1 0) (Vec4 0 0 0 1).

(** [operator*(mat4, vec4)]: the linear combination of the columns. *)
Definition mat4_mul_vec4 (m : mat4) (v : vec4) : vec4 :=
  vec4_add (vec4_add (vec4_add (vec4_scale (col0 m) (x4 v))
                               (vec4_scale (col1 m) (y4 v)))
                     (vec4_scale (col2 m) (z4 v)))
           (vec4_scale (col3 m) (w4 v)).

(** [operator*(mat4, mat4)]: column j of the product is [a * b[j]]. *)
Definition mat4_mul (a b : mat4) : mat4 :=
  Mat4 (mat4_mul_vec4 a (col0 b)) (mat4_mul_vec4 a (col1 b))
       (mat4_mul_vec4 a (col2 b)) (mat4_mul_vec4 a (col3 b)).

(** [glm::scale(m, v)]. *)
Definition scale_mat (m : mat4) (v : vec3) : mat4 :=
  Mat4 (vec4_scale (col0 m) (x3 v)) (vec4_scale (col1 m) (y3 v))
       (vec4_scale (col2 m) (z3 v)) (col3 m).

(** [glm::translate(m, v)]. *)
Definition translate_mat (m : mat4) (v : vec3) : mat4 :=
  Mat4 (col0 m) (col1 m) (col2 m)
       (vec4_add (vec4_add (vec4_add (vec4_scale (col0 m) (x3 v))
                                     (vec4_scale (col1 m) (y3 v)))
                           (vec4_scale (col2 m) (z3 v)))
                 (col3 m)).

(** [glm::rotate(m, angle, v)]: the axis is normalised, then the
    Rodrigues rotation is multiplied into [m] column by column. *)
Definition rotate_mat (m : mat4) (angle : R) (v : vec3) : mat4 :=
  let c := cos angle in
  let s := sin angle in
  let axis := normalize v in
  let temp := vec3_scale axis (1 - c) in
  let r00 := c + x3 temp * x3 axis in
  let r01 := x3 temp * y3 axis + s * z3 axis in
  let r02 := x3 temp * z3 axis - s * y3 axis in
  let r10 := y3 temp * x3 axis - s * z3 axis in
  let r11 := c + y3 temp * y3 axis in
  let r12 := y3 temp * z3 axis + s * x3 axis in
  let r20 := z3 temp * x3 axis + s * y3 axis in
  let r21 := z3 temp * y3 axis - s * x3 axis in
  let r22 := c + z3 temp * z3 axis in
  let lin (a b d : R) : vec4 :=
    vec4_add (vec4_add (vec4_scale (col0 m) a) (vec4_scale (col1 m) b))
             (vec4_scale (col2 m) d) in
  Mat4 (lin r00 r01 r02) (lin r10 r11 r12) (lin r20 r21 r22) (col3 m).

(** The one-argument forms of [glm/gtx/transform.hpp] start from the
    identity matrix. *)
Definition scale (v : vec3) : mat4 := scale_mat mat4_identity v.
Definition translate (v : vec3) : mat4 := translate_mat mat4_identity v.
Definition rotate (angle : R) (v : vec3) : mat4 :=
  rotate_mat mat4_identity angle v.
End glm.
Export glm.

(** ** The shading interface

    Modelled from the spec: [ShaderManager] (ShaderManager.h/.cpp are not
    under Source/) is the "uniform-setting facade": it accepts named
    scalar, vector, matrix, boolean and sampler values by string key, and
    the last write to a key wins before the next draw call.  A shader
    manager is the log of the writes it received, oldest first; the
    uniform store seen by a draw call is the map that log builds. *)

Inductive uniform_value : Type :=
  | UInt (i : Z)
  | UBool (b : bool)
  | UFloat (r : R)
  | UVec2 (v : vec2)
  | UVec3 (v : vec3)
  | UVec4 (v : vec4)
  | UMat4 (m : mat4)
  | USampler2D (slot : Z).

Definition ShaderManager : Type := list (string * uniform_value).

Definition set_uniform (name : string) (v : uniform_value)
    (sh : ShaderManager) : ShaderManager := sh ++ [(name, v)].

Definition setIntValue (name : string) (i : Z) := set_uniform name (UInt i).
Definition setBoolValue (name : string) (b : bool) := set_uniform name (UBool b).
Definition setFloatValue (name : string) (r : R) := set_uniform name (UFloat r).
Definition setVec2Value (name : string) (v : vec2) := set_uniform name (UVec2 v).
Definition setVec3Value (name : string) (v : vec3) := set_uniform name (UVec3 v).
Definition setVec4Value (name : string) (v : vec4) := set_uniform name (UVec4 v).
Definition setMat4Value (name : string) (m : mat4) := set_uniform name (UMat4 m).
Definition setSampler2DValue (name : string) (slot : Z) :=
  set_uniform name (USampler2D slot).

(** The uniform store after a log of writes: last write wins. *)
Definition uniforms (sh : ShaderManager) : gmap string uniform_value :=
  foldl (fun m kv => <[kv.1 := kv.2]> m) ∅ sh.

(** Conversion of a C++ [bool] argument to the [int] parameter of
    [setIntValue]. *)
Definition int_of_bool (b : bool) : Z := if b then 1%Z else 0%Z.

(** ** The graphics resource interface

    The OpenGL entry points the scene manager calls, recorded as a call
    log.  [glDeleteTextures] is the deletion primitive of that interface;
    [glGenTextures] is its allocation primitive and hands out texture
    names that were not in use. *)

Inductive GLenum : Type :=
  | GL_TEXTURE_2D
  | GL_TEXTURE_WRAP_S | GL_TEXTURE_WRAP_T
  | GL_TEXTURE_MIN_FILTER | GL_TEXTURE_MAG_FILTER
  | GL_REPEAT | GL_LINEAR
  | GL_RGB | GL_RGB8 | GL_RGBA | GL_RGBA8
  | GL_UNSIGNED_BYTE.

Inductive GLCall : Type :=
  | glGenTextures_call (name : Z)
  | glDeleteTextures_call (name : Z)
  | glBindTexture_call (target : GLenum) (name : Z)
  | glActiveTexture_call (unit : Z)       (* offset from GL_TEXTURE0 *)
  | glTexParameteri_call (target pname param : GLenum)
  | glTexImage2D_call (target internalformat : GLenum) (width height : Z)
                      (format type : GLenum)
  | glGenerateMipmap_call (target : GLenum).

Record GLState : Type := mkGL {
  gl_next_name : Z;           (* the next unused texture name *)
  gl_calls : list GLCall      (* the calls received, oldest first *)
}.

Definition gl_call (c : GLCall) (gl : GLState) : GLState :=
  mkGL (gl_next_name gl) (gl_calls gl ++ [c]).

(** [glGenTextures(1, &name)]. *)
Definition glGenTextures (gl : GLState) : Z * GLState :=
  (gl_next_name gl,
   mkGL (gl_next_name gl + 1)%Z (gl_calls gl ++ [glGenTextures_call (gl_next_name gl)])).

Definition is_delete (c : GLCall) : bool :=
  match c with glDeleteTextures_call _ => true | _ => false end.
Definition is_gen (c : GLCall) : bool :=
  match c with glGenTextures_call _ => true | _ => false end.

(** How many calls of a log satisfy [p]. *)
Definition count_calls (p : GLCall -> bool) (calls : list GLCall) : nat :=
  length (filter (fun c => p c = true) calls).

(** What [stbi_load] returned for a file: the decoded image's width,
    height and channel count. *)
Record Image : Type := mkImage {
  img_width : Z;
  img_height : Z;
  img_channels : Z
}.

(** ** SceneManager *)

Module Tex.
(** [TEXTURE_INFO]: a texture name ([GLuint]) and its tag. *)
Record TEXTURE_INFO : Type := mk { ID : Z; tag : string }.
End Tex.
Abbreviation TEXTURE_INFO := Tex.TEXTURE_INFO.

Module Mat.
(** [OBJECT_MATERIAL], with the fields the scene manager uses. *)
Record OBJECT_MATERIAL : Type := mk {
  diffuseColor : vec3;
  specularColor : vec3;
  shininess : R;
  tag : string
}.
End Mat.
Abbreviation OBJECT_MATERIAL := Mat.OBJECT_MATERIAL.

(** Modelled from the spec: the capacity of the [m_textureIDs] array; its
    declaration is in SceneManager.h, which is not under Source/.  The
    spec fixes the maximum count of live entries at 16, and the comments
    of [BindGLTextures] and [LoadSceneTextures] speak of 16 slots. *)
Definition MAX_TEXTURES : nat := 16.

Record SceneManager : Type := mkScene {
  m_pShaderManager : option ShaderManager;   (* [None] is NULL *)
  m_textureIDs : list TEXTURE_INFO;          (* the fixed-size array *)
  m_loadedTextures : Z;                      (* [int] *)
  m_objectMaterials : list OBJECT_MATERIAL   (* [std::vector] *)
}.

Definition set_shader (sh : option ShaderManager) (sm : SceneManager) :=
  mkScene sh (m_textureIDs sm) (m_loadedTextures sm) (m_objectMaterials sm).
Definition set_textures (arr : list TEXTURE_INFO) (n : Z) (sm : SceneManager) :=
  mkScene (m_pShaderManager sm) arr n (m_objectMaterials sm).
Definition set_materials (ms : list OBJECT_MATERIAL) (sm : SceneManager) :=
  mkScene (m_pShaderManager sm) (m_textureIDs sm) (m_loadedTextures sm) ms.

(** The names of the shader uniforms. *)
Definition g_ModelName : string := "model".
Definition g_ColorValueName : string := "objectColor".
Definition g_TextureValueName : string := "objectTexture".
Definition g_UseTextureName : string := "bUseTexture".
Definition g_UseLightingName : string := "bUseLighting".

Section SceneManagerMethods.
Local Open Scope Z_scope.

(** The external image decoder: what [stbi_load] returns for a file name
    ([None] is the null pointer of a failed load). *)
Variable stbi_load : string -> option Image.

(** [SceneManager::CreateGLTexture]. *)
Definition CreateGLTexture (filename tag : string)
    (sm : SceneManager) (gl : GLState)
    : outcome (bool * SceneManager * GLState) :=
  match stbi_load filename with
  | Some image =>
      let '(textureID, gl) := glGenTextures gl in
      let gl := gl_call (glBindTexture_call GL_TEXTURE_2D textureID) gl in
      let gl := gl_call (glTexParameteri_call GL_TEXTURE_2D GL_TEXTURE_WRAP_S GL_REPEAT) gl in
      let gl := gl_call (glTexParameteri_call GL_TEXTURE_2D GL_TEXTURE_WRAP_T GL_REPEAT) gl in
      let gl := gl_call (glTexParameteri_call GL_TEXTURE_2D GL_TEXTURE_MIN_FILTER GL_LINEAR) gl in
      let gl := gl_call (glTexParameteri_call GL_TEXTURE_2D GL_TEXTURE_MAG_FILTER GL_LINEAR) gl in
      let upload :=
        if img_channels image =? 3 then
          Some (glTexImage2D_call GL_TEXTURE_2D GL_RGB8 (img_width image)
                  (img_height image) GL_RGB GL_UNSIGNED_BYTE)
        else if img_channels image =? 4 then
          Some (glTexImage2D_call GL_TEXTURE_2D GL_RGBA8 (img_width image)
                  (img_height image) GL_RGBA GL_UNSIGNED_BYTE)
        else None in
      match upload with
      | None => Done (false, sm, gl)
      | Some teximage =>
          let gl := gl_call teximage gl in
          let gl := gl_call (glGenerateMipmap_call GL_TEXTURE_2D) gl in
          let gl := gl_call (glBindTexture_call GL_TEXTURE_2D 0) gl in
          let n := m_loadedTextures sm in
          (* m_textureIDs[m_loadedTextures].ID = textureID; *)
          e ← array_get (m_textureIDs sm) n;
          arr ← array_set (m_textureIDs sm) n (Tex.mk textureID (Tex.tag e));
          (* m_textureIDs[m_loadedTextures].tag = tag; *)
          e ← array_get arr n;
          arr ← array_set arr n (Tex.mk (Tex.ID e) tag);
          (* m_loadedTextures++; *)
          Done (true, set_textures arr (int_incr n) sm, gl)
      end
  | None => Done (false, sm, gl)
  end.

(** [SceneManager::BindGLTextures]. *)
Definition BindGLTextures_cond (sm : SceneManager) (s : Z * GLState) : bool :=
  s.1 <? m_loadedTextures sm.

Definition BindGLTextures_body (sm : SceneManager) (s : Z * GLState)
    : outcome (Z * GLState) :=
  let '(i, gl) := s in
  let gl := gl_call (glActiveTexture_call i) gl in
  e ← array_get (m_textureIDs sm) i;
  Done (int_incr i, gl_call (glBindTexture_call GL_TEXTURE_2D (Tex.ID e)) gl).

Definition BindGLTextures (sm : SceneManager) (gl : GLState) : outcome GLState :=
  s ← while (Z.to_nat (m_loadedTextures sm)) (BindGLTextures_cond sm)
        (BindGLTextures_body sm) (0, gl);
  Done s.2.

(** [SceneManager::DestroyGLTextures]. *)
Definition DestroyGLTextures_cond (n : Z) (s : Z * list TEXTURE_INFO * GLState)
    : bool := s.1.1 <? n.

Definition DestroyGLTextures_body (s : Z * list TEXTURE_INFO * GLState)
    : outcome (Z * list TEXTURE_INFO * GLState) :=
  let '(i, arr, gl) := s in
  (* glGenTextures(1, &m_textureIDs[i].ID); *)
  e ← array_get arr i;
  let '(name, gl) := glGenTextures gl in
  arr ← array_set arr i (Tex.mk name (Tex.tag e));
  Done (int_incr i, arr, gl).

Definition DestroyGLTextures (sm : SceneManager) (gl : GLState)
    : outcome (SceneManager * GLState) :=
  s ← while (Z.to_nat (m_loadedTextures sm))
        (DestroyGLTextures_cond (m_loadedTextures sm)) DestroyGLTextures_body
        (0, m_textureIDs sm, gl);
  Done (set_textures s.1.2 (m_loadedTextures sm) sm, s.2).

(** [SceneManager::FindTextureID].  The loop state is
    [(textureID, index, bFound)]. *)
Definition FindTexture_cond (sm : SceneManager) (s : Z * Z * bool) : bool :=
  let '(_, index, bFound) := s in
  (index <? m_loadedTextures sm) && negb bFound.

Definition FindTextureID_body (sm : SceneManager) (tag : string)
    (s : Z * Z * bool) : outcome (Z * Z * bool) :=
  let '(textureID, index, bFound) := s in
  e ← array_get (m_textureIDs sm) index;
  if compare_is_0 (Tex.tag e) tag
  then Done (int_wrap (Tex.ID e), index, true)   (* GLuint to int *)
  else Done (textureID, int_incr index, bFound).

Definition FindTextureID (tag : string) (sm : SceneManager) : outcome Z :=
  s ← while (S (Z.to_nat (m_loadedTextures sm))) (FindTexture_cond sm)
        (FindTextureID_body sm tag) (-1, 0, false);
  Done s.1.1.

(** [SceneManager::FindTextureSlot].  The loop state is
    [(textureSlot, index, bFound)]. *)
Definition FindTextureSlot_body (sm : SceneManager) (tag : string)
    (s : Z * Z * bool) : outcome (Z * Z * bool) :=
  let '(textureSlot, index, bFound) := s in
  e ← array_get (m_textureIDs sm) index;
  if compare_is_0 (Tex.tag e) tag
  then Done (index, index, true)
  else Done (textureSlot, int_incr index, bFound).

Definition FindTextureSlot (tag : string) (sm : SceneManager) : outcome Z :=
  s ← while (S (Z.to_nat (m_loadedTextures sm))) (FindTexture_cond sm)
        (FindTextureSlot_body sm tag) (-1, 0, false);
  Done s.1.1.

(** [m_objectMaterials.size()], a [size_t]. *)
Definition materials_size (sm : SceneManager) : Z :=
  Z.of_nat (length (m_objectMaterials sm)).

(** [SceneManager::FindMaterial].  [material] is the reference parameter;
    its value after the call is returned next to the result.  The loop
    state is [(index, bFound, material)]. *)
Definition FindMaterial_cond (sm : SceneManager)
    (s : Z * bool * OBJECT_MATERIAL) : bool :=
  let '(index, bFound, _) := s in
  (size_t_of_int index <? materials_size sm) && negb bFound.

Definition FindMaterial_body (sm : SceneManager) (tag : string)
    (s : Z * bool * OBJECT_MATERIAL) : outcome (Z * bool * OBJECT_MATERIAL) :=
  let '(index, bFound, material) := s in
  e ← array_get (m_objectMaterials sm) (size_t_of_int index);
  if compare_is_0 (Mat.tag e) tag
  then Done (index, true,
             Mat.mk (Mat.diffuseColor e) (Mat.specularColor e)
                    (Mat.shininess e) (Mat.tag material))
  else Done (int_incr index, bFound, material).

Definition FindMaterial (tag : string) (material : OBJECT_MATERIAL)
    (sm : SceneManager) : outcome (bool * OBJECT_MATERIAL) :=
  if materials_size sm =? 0 then Done (false, material)
  else
    s ← while (S (length (m_objectMaterials sm))) (FindMaterial_cond sm)
          (FindMaterial_body sm tag) (0, false, material);
    Done (true, s.2).

(** The local [modelView] of [SceneManager::SetTransformations]; C++
    evaluates the product from the left. *)
Definition modelView (scaleXYZ : vec3)
    (XrotationDegrees YrotationDegrees ZrotationDegrees : R)
    (positionXYZ : vec3) : mat4 :=
  let scale := glm.scale scaleXYZ in
  let rotationX := glm.rotate (radians XrotationDegrees) (Vec3 1 0 0) in
  let rotationY := glm.rotate (radians YrotationDegrees) (Vec3 0 1 0) in
  let rotationZ := glm.rotate (radians ZrotationDegrees) (Vec3 0 0 1) in
  let translation := glm.translate positionXYZ in
  mat4_mul (mat4_mul (mat4_mul (mat4_mul translation rotationZ) rotationY)
                     rotationX) scale.

(** [SceneManager::SetTransformations]. *)
Definition SetTransformations (scaleXYZ : vec3)
    (XrotationDegrees YrotationDegrees ZrotationDegrees : R)
    (positionXYZ : vec3) (sm : SceneManager) : SceneManager :=
  let m := modelView scaleXYZ XrotationDegrees YrotationDegrees
             ZrotationDegrees positionXYZ in
  match m_pShaderManager sm with
  | Some sh => set_shader (Some (setMat4Value g_ModelName m sh)) sm
  | None => sm
  end.

(** [SceneManager::SetShaderColor]. *)
Definition SetShaderColor
    (redColorValue greenColorValue blueColorValue alphaValue : R)
    (sm : SceneManager) : SceneManager :=
  let currentColor :=
    Vec4 redColorValue greenColorValue blueColorValue alphaValue in
  match m_pShaderManager sm with
  | Some sh =>
      let sh := setIntValue g_UseTextureName (int_of_bool false) sh in
      let sh := setVec4Value g_ColorValueName currentColor sh in
      set_shader (Some sh) sm
  | None => sm
  end.

(** [SceneManager::SetShaderTexture]. *)
Definition SetShaderTexture (textureTag : string) (sm : SceneManager)
    : outcome SceneManager :=
  match m_pShaderManager sm with
  | Some sh =>
      let sh := setIntValue g_UseTextureName (int_of_bool true) sh in
      textureID ← FindTextureSlot textureTag sm;
      let sh := setSampler2DValue g_TextureValueName textureID sh in
      Done (set_shader (Some sh) sm)
  | None => Done sm
  end.

(** [SceneManager::SetTextureUVScale]. *)
Definition SetTextureUVScale (u v : R) (sm : SceneManager) : SceneManager :=
  match m_pShaderManager sm with
  | Some sh => set_shader (Some (setVec2Value "UVscale" (Vec2 u v) sh)) sm
  | None => sm
  end.

(** [SceneManager::SetShaderMaterial].  The local [material] is declared
    without an initialiser; [uninitialised] stands for whatever it holds
    when [FindMaterial] receives it.  The shader manager is used without
    a NULL test. *)
Definition SetShaderMaterial (materialTag : string)
    (uninitialised : OBJECT_MATERIAL) (sm : SceneManager)
    : outcome SceneManager :=
  if materials_size sm >? 0 then
    r ← FindMaterial materialTag uninitialised sm;
    let '(bReturn, material) := (r : bool * OBJECT_MATERIAL) in
    if bReturn then
      match m_pShaderManager sm with
      | Some sh =>
          let sh := setVec3Value "material.diffuseColor" (Mat.diffuseColor material) sh in
          let sh := setVec3Value "material.specularColor" (Mat.specularColor material) sh in
          let sh := setFloatValue "material.shininess" (Mat.shininess material) sh in
          Done (set_shader (Some sh) sm)
      | None => Undefined NullDereference
      end
    else Done sm
  else Done sm.

(** [SceneManager::DefineObjectMaterials]. *)
Definition plasticMaterial : OBJECT_MATERIAL :=
  Mat.mk (Vec3 0.5 0.5 0.5) (Vec3 0.7 0.7 0.7) 5.0 "plastic".
Definition woodMaterial : OBJECT_MATERIAL :=
  Mat.mk (Vec3 0.6 0.5 0.2) (Vec3 0.5 0.2 0.5) 1.0 "wood".
Definition stoneMaterial : OBJECT_MATERIAL :=
  Mat.mk (Vec3 0.5 0.5 0.5) (Vec3 0.73 0.3 0.3) 6.0 "stone".

Definition DefineObjectMaterials (sm : SceneManager) : SceneManager :=
  set_materials
    (m_objectMaterials sm ++ [plasticMaterial] ++ [woodMaterial] ++ [stoneMaterial])
    sm.

(** [SceneManager::LoadSceneTextures]; the results of the two loads are
    discarded. *)
Definition LoadSceneTextures (sm : SceneManager) (gl : GLState)
    : outcome (SceneManager * GLState) :=
  r ← CreateGLTexture "textures/marbletexture.jpg" "marble" sm gl;
  r ← CreateGLTexture "textures/woodtexture.jpg" "wood" r.1.2 r.2;
  gl ← BindGLTextures r.1.2 r.2;
  Done (r.1.2, gl).

End SceneManagerMethods.

(** ** Camera

    Modelled from the spec: the [Camera] class (camera.h is not under
    Source/).  The spec's CameraState has position, frontDirection,
    upDirection, yaw and pitch in degrees, zoomFieldOfView, movementSpeed
    and mouseSensitivity; the mouse handler re-derives a right/up basis and
    the keyboard handler moves along frontDirection, right and world-up,
    so the state carries [Right] and [WorldUp] as well. *)

Record Camera : Type := mkCamera {
  Position : vec3;
  Front : vec3;
  Up : vec3;
  Right : vec3;
  WorldUp : vec3;
  Yaw : R;
  Pitch : R;
  MovementSpeed : R;
  MouseSensitivity : R;
  Zoom : R
}.

Inductive Camera_Movement : Type :=
  | FORWARD | BACKWARD | LEFT | RIGHT | UP | DOWN.

Section CameraMethods.
Local Open Scope R_scope.

(** Modelled from the spec: "clamp pitch to (-89, 89)": a pitch beyond a
    bound is set to that bound. *)
Definition clamp_pitch (pitch : R) : R :=
  if Rlt_dec 89 pitch then 89
  else if Rlt_dec pitch (-89) then -89
  else pitch.

(** Modelled from the spec: "recompute frontDirection from yaw/pitch via
    standard spherical-to-Cartesian conversion and re-derive an orthonormal
    right/up basis". *)
Definition view_direction (yaw pitch : R) : vec3 :=
  normalize (Vec3 (cos (radians yaw) * cos (radians pitch))
                  (sin (radians pitch))
                  (sin (radians yaw) * cos (radians pitch))).

Definition updateCameraVectors (c : Camera) : Camera :=
  let front := view_direction (Yaw c) (Pitch c) in
  let right := normalize (cross front (WorldUp c)) in
  let up := normalize (cross right front) in
  mkCamera (Position c) front up right (WorldUp c) (Yaw c) (Pitch c)
           (MovementSpeed c) (MouseSensitivity c) (Zoom c).

(** Modelled from the spec: [Camera::ProcessMouseMovement]: "scale both
    offsets by mouseSensitivity, add to yaw/pitch, clamp pitch [...], then
    recompute frontDirection". *)
Definition ProcessMouseMovement (xoffset yoffset : R) (c : Camera) : Camera :=
  let xoffset := xoffset * MouseSensitivity c in
  let yoffset := yoffset * MouseSensitivity c in
  let yaw := Yaw c + xoffset in
  let pitch := clamp_pitch (Pitch c + yoffset) in
  updateCameraVectors
    (mkCamera (Position c) (Front c) (Up c) (Right c) (WorldUp c) yaw pitch
              (MovementSpeed c) (MouseSensitivity c) (Zoom c)).

(** Modelled from the spec: [Camera::ProcessKeyboard]: "translate position
    along frontDirection, right, or world-up by movementSpeed *
    deltaTime". *)
Definition ProcessKeyboard (direction : Camera_Movement) (deltaTime : R)
    (c : Camera) : Camera :=
  let velocity := MovementSpeed c * deltaTime in
  let position :=
    match direction with
    | FORWARD => vec3_add (Position c) (vec3_scale (Front c) velocity)
    | BACKWARD => vec3_sub (Position c) (vec3_scale (Front c) velocity)
    | LEFT => vec3_sub (Position c) (vec3_scale (Right c) velocity)
    | RIGHT => vec3_add (Position c) (vec3_scale (Right c) velocity)
    | UP => vec3_add (Position c) (vec3_scale (WorldUp c) velocity)
    | DOWN => vec3_sub (Position c) (vec3_scale (WorldUp c) velocity)
    end in
  mkCamera position (Front c) (Up c) (Right c) (WorldUp c) (Yaw c) (Pitch c)
           (MovementSpeed c) (MouseSensitivity c) (Zoom c).

End CameraMethods.

(** ** ViewManager *)

(** The keys [ProcessKeyboardEvents] polls. *)
Inductive Key : Type :=
  | GLFW_KEY_ESCAPE
  | GLFW_KEY_W | GLFW_KEY_S | GLFW_KEY_A | GLFW_KEY_D
  | GLFW_KEY_Q | GLFW_KEY_E
  | GLFW_KEY_P | GLFW_KEY_O.

#[export] Instance Key_eq_dec : EqDecision Key.
Proof. solve_decision. Defined.

(** The camera, the static members of [ViewManager], the file-scope
    [bOrthographicProjection], and the window's should-close flag. *)
Record ViewManager : Type := mkView {
  g_pCamera : Camera;
  gLastX : R;
  gLastY : R;
  gFirstMouse : bool;
  gDeltaTime : R;
  gLastFrame : R;
  bOrthographicProjection : bool;
  windowShouldClose : bool
}.

Definition set_camera (c : Camera) (vm : ViewManager) : ViewManager :=
  mkView c (gLastX vm) (gLastY vm) (gFirstMouse vm) (gDeltaTime vm)
         (gLastFrame vm) (bOrthographicProjection vm) (windowShouldClose vm).
Definition set_projection (b : bool) (vm : ViewManager) : ViewManager :=
  mkView (g_pCamera vm) (gLastX vm) (gLastY vm) (gFirstMouse vm)
         (gDeltaTime vm) (gLastFrame vm) b (windowShouldClose vm).
Definition set_should_close (b : bool) (vm : ViewManager) : ViewManager :=
  mkView (g_pCamera vm) (gLastX vm) (gLastY vm) (gFirstMouse vm)
         (gDeltaTime vm) (gLastFrame vm) (bOrthographicProjection vm) b.

Section ViewManagerMethods.
Local Open Scope R_scope.

(** [ViewManager::ViewManager], with the static initialisers of the file;
    [camera] is what [new Camera()] built. *)
Definition ViewManager_new (camera : Camera) : ViewManager :=
  mkView
    (mkCamera (Vec3 0 5 20) (Vec3 0 0 (-1)) (Vec3 0 1 0) (Right camera)
              (WorldUp camera) (Yaw camera) (Pitch camera) 20
              (MouseSensitivity camera) 80)
    0 0 true 0 0 false false.

(** [ViewManager::Mouse_Position_Callback]. *)
Definition Mouse_Position_Callback (xMousePos yMousePos : R)
    (vm : ViewManager) : ViewManager :=
  let '(lastX, lastY, firstMouse) :=
    if gFirstMouse vm then (xMousePos, yMousePos, false)
    else (gLastX vm, gLastY vm, gFirstMouse vm) in
  let xOffset := xMousePos - lastX in
  let yOffset := lastY - yMousePos in
  mkView (ProcessMouseMovement xOffset yOffset (g_pCamera vm))
         xMousePos yMousePos firstMouse (gDeltaTime vm) (gLastFrame vm)
         (bOrthographicProjection vm) (windowShouldClose vm).

(** [glfwGetKey(m_pWindow, key) == GLFW_PRESS], for every key. *)
Definition KeyState : Type := Key -> bool.

(** One [if (glfwGetKey(...) == GLFW_PRESS) { ... }] statement. *)
Definition when_pressed (keys : KeyState) (k : Key)
    (action : ViewManager -> ViewManager) (vm : ViewManager) : ViewManager :=
  if keys k then action vm else vm.

Definition camera_key (direction : Camera_Movement) (vm : ViewManager)
    : ViewManager :=
  set_camera (ProcessKeyboard direction (gDeltaTime vm) (g_pCamera vm)) vm.

(** [ViewManager::ProcessKeyboardEvents]. *)
Definition ProcessKeyboardEvents (keys : KeyState) (vm : ViewManager)
    : ViewManager :=
  let vm := when_pressed keys GLFW_KEY_ESCAPE (set_should_close true) vm in
  let vm := when_pressed keys GLFW_KEY_W (camera_key FORWARD) vm in
  let vm := when_pressed keys GLFW_KEY_S (camera_key BACKWARD) vm in
  let vm := when_pressed keys GLFW_KEY_A (camera_key LEFT) vm in
  let vm := when_pressed keys GLFW_KEY_D (camera_key RIGHT) vm in
  let vm := when_pressed keys GLFW_KEY_Q (camera_key UP) vm in
  let vm := when_pressed keys GLFW_KEY_E (camera_key DOWN) vm in
  let vm := when_pressed keys GLFW_KEY_P (set_projection false) vm in
  let vm := when_pressed keys GLFW_KEY_O (set_projection true) vm in
  vm.

(** A run of mouse-move events, oldest first. *)
Definition mouse_moves (events : list (R * R)) (vm : ViewManager)
    : ViewManager :=
  foldl (fun vm e => Mouse_Position_Callback e.1 e.2 vm) vm events.

(** A run of keyboard polls, oldest first. *)
Definition keyboard_polls (polls : list KeyState) (vm : ViewManager)
    : ViewManager :=
  foldl (fun vm keys => ProcessKeyboardEvents keys vm) vm polls.

(** The key state in which exactly the keys of [held] are pressed. *)
Definition holding (held : list Key) : KeyState :=
  fun k => bool_decide (k ∈ held).

End ViewManagerMethods.

(** ** The transform contract in the spec's words

    The five matrices of the Transform Engine, written out entry by entry
    (column-major, as above), and the same five steps as maps on points. *)

Module TransformSpec.
Local Open Scope R_scope.

Definition deg (degrees : R) : R := degrees * PI / 180.

Definition Scale (s : vec3) : mat4 :=
  Mat4 (Vec4 (x3 s) 0 0 0) (Vec4 0 (y3 s) 0 0) (Vec4 0 0 (z3 s) 0) (Vec4 0 0 0 1).

Definition RotationX (degrees : R) : mat4 :=
  let a := deg degrees in
  Mat4 (Vec4 1 0 0 0) (Vec4 0 (cos a) (sin a) 0)
       (Vec4 0 (- sin a) (cos a) 0) (Vec4 0 0 0 1).

Definition RotationY (degrees : R) : mat4 :=
  let a := deg degrees in
  Mat4 (Vec4 (cos a) 0 (- sin a) 0) (Vec4 0 1 0 0)
       (Vec4 (sin a) 0 (cos a) 0) (Vec4 0 0 0 1).

Definition RotationZ (degrees : R) : mat4 :=
  let a := deg degrees in
  Mat4 (Vec4 (cos a) (sin a) 0 0) (Vec4 (- sin a) (cos a) 0 0)
       (Vec4 0 0 1 0) (Vec4 0 0 0 1).

Definition Translation (t : vec3) : mat4 :=
  Mat4 (Vec4 1 0 0 0) (Vec4 0 1 0 0) (Vec4 0 0 1 0) (Vec4 (x3 t) (y3 t) (z3 t) 1).

(** [M = Translation · RotationZ · RotationY · RotationX · Scale]. *)
Definition Compute (s : vec3) (rotX rotY rotZ : R) (t : vec3) : mat4 :=
  mat4_mul (Translation t)
    (mat4_mul (RotationZ rotZ)
       (mat4_mul (RotationY rotY)
          (mat4_mul (RotationX rotX) (Scale s)))).

(** The steps as maps on points: scale, turn about the fixed X, Y and Z
    axes, move. *)
Definition scale_point (s p : vec3) : vec3 :=
  Vec3 (x3 s * x3 p) (y3 s * y3 p) (z3 s * z3 p).
Definition turn_about_X (degrees : R) (p : vec3) : vec3 :=
  let a := deg degrees in
  Vec3 (x3 p) (cos a * y3 p - sin a * z3 p) (sin a * y3 p + cos a * z3 p).
Definition turn_about_Y (degrees : R) (p : vec3) : vec3 :=
  let a := deg degrees in
  Vec3 (cos a * x3 p + sin a * z3 p) (y3 p) (cos a * z3 p - sin a * x3 p).
Definition turn_about_Z (degrees : R) (p : vec3) : vec3 :=
  let a := deg degrees in
  Vec3 (cos a * x3 p - sin a * y3 p) (sin a * x3 p + cos a * y3 p) (z3 p).
Definition move_point (t p : vec3) : vec3 := vec3_add p t.

(** A point in homogeneous coordinates. *)
Definition homogeneous (p : vec3) : vec4 := Vec4 (x3 p) (y3 p) (z3 p) 1.

End TransformSpec.

(** ** Registry states and runs used in the statements *)

Section Registry.
Local Open Scope Z_scope.

(** The live entries of the texture registry, in insertion order. *)
Definition loaded (sm : SceneManager) : list TEXTURE_INFO :=
  take (Z.to_nat (m_loadedTextures sm)) (m_textureIDs sm).

(** The array has its declared capacity and the load count is within
    it. *)
Definition registry_ok (sm : SceneManager) : Prop :=
  length (m_textureIDs sm) = MAX_TEXTURES /\
  0 <= m_loadedTextures sm <= Z.of_nat MAX_TEXTURES.

(** [SceneManager::SceneManager].  The constructor assigns the shader
    manager (and the mesh object, kept here as the log of mesh calls) and
    nothing else: the texture array and [m_loadedTextures] are not assigned,
    so what they hold at that point is taken as a parameter; the material
    vector is default-constructed, empty. *)
Definition SceneManager_constructor (pShaderManager : option ShaderManager)
    (textureIDs : list TEXTURE_INFO) (loadedTextures : Z) : SceneManager :=
  mkScene pShaderManager textureIDs loadedTextures [].

(** A scene manager with an empty registry and an empty catalogue: the load
    count is 0.  This is an input state of its own, not what the
    constructor establishes: the constructor leaves the count as it finds
    it. *)
Definition SceneManager_new (pShaderManager : option ShaderManager)
    : SceneManager :=
  mkScene pShaderManager (replicate MAX_TEXTURES (Tex.mk 0 "")) 0 [].

Definition GL_new : GLState := mkGL 1 [].

(** A run of [CreateGLTexture] calls, oldest first, on [(filename, tag)]
    pairs; the results of the calls are collected. *)
Fixpoint load_all (stbi_load : string -> option Image)
    (files : list (string * string)) (sm : SceneManager) (gl : GLState)
    : outcome (list bool * SceneManager * GLState) :=
  match files with
  | [] => Done ([], sm, gl)
  | (filename, tag) :: files =>
      r ← CreateGLTexture stbi_load filename tag sm gl;
      r' ← load_all stbi_load files r.1.2 r.2;
      Done (r.1.1 :: r'.1.1, r'.1.2, r'.2)
  end.

(** The calls that bind the given entries to consecutive texture units,
    starting at [unit]. *)
Fixpoint bind_calls (unit : Z) (entries : list TEXTURE_INFO) : list GLCall :=
  match entries with
  | [] => []
  | e :: entries =>
      glActiveTexture_call unit :: glBindTexture_call GL_TEXTURE_2D (Tex.ID e)
        :: bind_calls (unit + 1) entries
  end.

(** The value [FindTextureID] hands back for a registered name. *)
Definition returned_ID (e : TEXTURE_INFO) : Z := int_wrap (Tex.ID e).

(** No entry before position [i] carries the tag. *)
Definition first_texture_at (tag : string) (entries : list TEXTURE_INFO)
    (i : nat) (e : TEXTURE_INFO) : Prop :=
  entries !! i = Some e /\ Tex.tag e = tag /\
  forall j e', (j < i)%nat -> entries !! j = Some e' -> Tex.tag e' <> tag.

Definition first_material_at (tag : string) (entries : list OBJECT_MATERIAL)
    (i : nat) (e : OBJECT_MATERIAL) : Prop :=
  entries !! i = Some e /\ Mat.tag e = tag /\
  forall j e', (j < i)%nat -> entries !! j = Some e' -> Mat.tag e' <> tag.

(** The three fields [FindMaterial] copies; the tag of the out-descriptor
    is not assigned. *)
Definition copy_material (e material : OBJECT_MATERIAL) : OBJECT_MATERIAL :=
  Mat.mk (Mat.diffuseColor e) (Mat.specularColor e) (Mat.shininess e)
         (Mat.tag material).

(** The uniform store a scene manager's shader holds (empty for NULL). *)
Definition shader_uniforms (sm : SceneManager) : gmap string uniform_value :=
  match m_pShaderManager sm with
  | Some sh => uniforms sh
  | None => ∅
  end.

End Registry.

(** ** Concrete states *)

(** A decoder for which every file is a 64 x 64 RGB image. *)
Definition every_file_rgb : string -> option Image :=
  fun _ => Some (mkImage 64 64 3).

(** Seventeen files to load; [sixteen_files] is the first 16 of them. *)
Definition seventeenth_file : string * string := ("textures/t16.jpg", "t16").
Definition sixteen_files : list (string * string) :=
  [("textures/t0.jpg", "t0"); ("textures/t1.jpg", "t1");
   ("textures/t2.jpg", "t2"); ("textures/t3.jpg", "t3");
   ("textures/t4.jpg", "t4"); ("textures/t5.jpg", "t5");
   ("textures/t6.jpg", "t6"); ("textures/t7.jpg", "t7");
   ("textures/t8.jpg", "t8"); ("textures/t9.jpg", "t9");
   ("textures/t10.jpg", "t10"); ("textures/t11.jpg", "t11");
   ("textures/t12.jpg", "t12"); ("textures/t13.jpg", "t13");
   ("textures/t14.jpg", "t14"); ("textures/t15.jpg", "t15")].

(** A registry in which the tag "marble" was loaded twice. *)
Definition scene_duplicate_tag : SceneManager :=
  mkScene None
    ([Tex.mk 7 "marble"; Tex.mk 8 "wood"; Tex.mk 9 "marble"]
       ++ replicate 13 (Tex.mk 0 ""))
    3 [].

(** The scene after [LoadSceneTextures] and [DefineObjectMaterials], with
    a shader that already holds a flat colour, a sampler and a material. *)
Definition shader_in_use : ShaderManager :=
  [(g_UseTextureName, UInt 0); (g_TextureValueName, USampler2D 1);
   ("material.diffuseColor", UVec3 (Vec3 0.6 0.5 0.2));
   ("material.specularColor", UVec3 (Vec3 0.5 0.2 0.5));
   ("material.shininess", UFloat 1)].

Definition scene_in_use : SceneManager :=
  mkScene (Some shader_in_use)
    ([Tex.mk 1 "marble"; Tex.mk 2 "wood"] ++ replicate 14 (Tex.mk 0 ""))
    2 [plasticMaterial; woodMaterial; stoneMaterial].

(** What the uninitialised local of [SetShaderMaterial] holds in the
    examples: a zeroed stack slot. *)
Definition zeroed_material : OBJECT_MATERIAL :=
  Mat.mk (Vec3 0 0 0) (Vec3 0 0 0) 0 "".

(** A camera looking along -Z with level pitch, and the view manager built
    around it. *)
Definition camera_level : Camera :=
  mkCamera (Vec3 0 0 0) (Vec3 0 0 (-1)) (Vec3 0 1 0) (Vec3 1 0 0) (Vec3 0 1 0)
           (-90) 0 (5 / 2) (1 / 10) 45.

Definition view_start : ViewManager := ViewManager_new camera_level.

(** ** Scene preparation *)

Section ScenePreparation.
Local Open Scope R_scope.

(** [SceneManager::SetupSceneLights].  The shader manager is used
    without a NULL test. *)
Definition SetupSceneLights (sm : SceneManager) : outcome SceneManager :=
  match m_pShaderManager sm with
  | None => Undefined NullDereference
  | Some sh =>
      let sh := setBoolValue g_UseLightingName true sh in
      (* point light 1 *)
      let sh := setVec3Value "pointLights[0].position" (Vec3 4.0 6.0 2.0) sh in
      let sh := setVec3Value "pointLights[0].ambient" (Vec3 0.05 0.05 0.05) sh in
      let sh := setVec3Value "pointLights[0].diffuse" (Vec3 1.0 1.0 1.0) sh in
      let sh := setVec3Value "pointLights[0].specular" (Vec3 0.2 0.2 0.2) sh in
      let sh := setBoolValue "pointLights[0].bActive" true sh in
      (* point light 2 *)
      let sh := setVec3Value "pointLights[1].position" (Vec3 (-4.0) (-4.0) (-4.0)) sh in
      let sh := setVec3Value "pointLights[1].ambient" (Vec3 0.05 0.05 0.05) sh in
      let sh := setVec3Value "pointLights[1].diffuse" (Vec3 0.8 0.8 0.8) sh in
      let sh := setVec3Value "pointLights[1].specular" (Vec3 0.2 0.2 0.2) sh in
      let sh := setBoolValue "pointLights[1].bActive" true sh in
      (* directional light 3 *)
      let sh := setVec3Value "directionalLight.direction" (Vec3 7.2 7.2 1.5) sh in
      let sh := setVec3Value "directionalLight.ambient" (Vec3 0.05 0.05 0.01) sh in
      let sh := setVec3Value "directionalLight.diffuse" (Vec3 0.8 0.8 0.8) sh in
      let sh := setVec3Value "directionalLight.specular" (Vec3 0.2 0.2 0.2) sh in
      let sh := setBoolValue "directionalLight.bActive" true sh in
      (* spotlight 4 *)
      let sh := setVec3Value "spotLight.ambient" (Vec3 0.0 0.0 0.0) sh in
      let sh := setVec3Value "spotLight.diffuse" (Vec3 1.0 1.0 1.0) sh in
      let sh := setVec3Value "spotLight.specular" (Vec3 1.0 1.0 1.0) sh in
      let sh := setFloatValue "spotLight.constant" 1.0 sh in
      let sh := setFloatValue "spotLight.linear" 0.014 sh in
      let sh := setFloatValue "spotLight.quadratic" 0.0007 sh in
      let sh := setFloatValue "spotLight.cutOff" (cos (radians 22.5)) sh in
      let sh := setFloatValue "spotLight.outerCutOff" (cos (radians 28.0)) sh in
      let sh := setBoolValue "spotLight.bActive" true sh in
      Done (set_shader (Some sh) sm)
  end.

(** The meshes of [ShapeMeshes] the scene uses, and the calls made on
    [m_basicMeshes], oldest first.  A draw call is recorded with the
    shader manager as it stands when the call is made. *)
Inductive Mesh : Type :=
  | PlaneMesh | CylinderMesh | TaperedCylinderMesh | BoxMesh.

Inductive MeshCall : Type :=
  | LoadMesh_call (m : Mesh)
  | DrawMesh_call (m : Mesh) (shader : option ShaderManager).

Definition DrawMesh (m : Mesh) (sm : SceneManager) (calls : list MeshCall)
    : list MeshCall := calls ++ [DrawMesh_call m (m_pShaderManager sm)].


End ScenePreparation.

(** ** Names used in the statements about the shader uniforms *)

(** The uniforms the per-object setters of the scene manager write. *)
Definition per_object_uniforms : list string :=
  [g_ModelName; g_ColorValueName; g_TextureValueName; g_UseTextureName;
   "UVscale"; "material.diffuseColor"; "material.specularColor";
   "material.shininess"].

(** The keys a log of writes touches. *)
Definition written (ws : ShaderManager) : list string := ws.*1.

(** ** Points under a model matrix *)

(** Where the model matrix [m] puts the mesh point [p]. *)
Definition apply_model (m : mat4) (p : vec3) : vec3 :=
  let v := mat4_mul_vec4 m (TransformSpec.homogeneous p) in
  Vec3 (x4 v) (y4 v) (z4 v).

(** Squared length, and squared distance between two points. *)
Definition norm2 (v : vec3) : R := dot v v.
Definition dist2 (p q : vec3) : R := norm2 (vec3_sub p q).

(** ** The per-frame view and projection *)

Section ViewPreparation.
Local Open Scope R_scope.

(** [glm::lookAt(eye, center, up)] (right-handed). *)
Definition lookAt (eye center up : vec3) : mat4 :=
  let f := normalize (vec3_sub center eye) in
  let s := normalize (cross f up) in
  let u := cross s f in
  Mat4 (Vec4 (x3 s) (x3 u) (- x3 f) 0)
       (Vec4 (y3 s) (y3 u) (- y3 f) 0)
       (Vec4 (z3 s) (z3 u) (- z3 f) 0)
       (Vec4 (- dot s eye) (- dot u eye) (dot f eye) 1).

(** [glm::ortho(left, right, bottom, top, zNear, zFar)] (right-handed,
    depth from -1 to 1). *)
Definition ortho (left right bottom top zNear zFar : R) : mat4 :=
  Mat4 (Vec4 (2 / (right - left)) 0 0 0)
       (Vec4 0 (2 / (top - bottom)) 0 0)
       (Vec4 0 0 (- (2 / (zFar - zNear))) 0)
       (Vec4 (- ((right + left) / (right - left)))
             (- ((top + bottom) / (top - bottom)))
             (- ((zFar + zNear) / (zFar - zNear))) 1).

(** [glm::perspective(fovy, aspect, zNear, zFar)] (right-handed, depth
    from -1 to 1). *)
Definition perspective (fovy aspect zNear zFar : R) : mat4 :=
  let tanHalfFovy := tan (fovy / 2) in
  Mat4 (Vec4 (1 / (aspect * tanHalfFovy)) 0 0 0)
       (Vec4 0 (1 / tanHalfFovy) 0 0)
       (Vec4 0 0 (- ((zFar + zNear) / (zFar - zNear))) (-1))
       (Vec4 0 0 (- ((2 * zFar * zNear) / (zFar - zNear))) 0).

(** Modelled from the spec: [Camera::GetViewMatrix] (camera.h is not
    under Source/): the "standard look-at built from position,
    position+frontDirection, upDirection". *)
Definition GetViewMatrix (c : Camera) : mat4 :=
  lookAt (Position c) (vec3_add (Position c) (Front c)) (Up c).

Definition WINDOW_WIDTH : Z := 1000.
Definition WINDOW_HEIGHT : Z := 800.
Definition g_ViewName : string := "view".
Definition g_ProjectionName : string := "projection".

(** [ViewManager::PrepareSceneView].  [glfwGetTime] is the time the
    window system reports, [keys] the key states it reports during the
    call, [pShaderManager] the member [m_pShaderManager] of the view
    manager. *)
Definition PrepareSceneView (glfwGetTime : R) (keys : KeyState)
    (pShaderManager : option ShaderManager) (vm : ViewManager)
    : ViewManager * option ShaderManager :=
  (* per-frame timing *)
  let currentFrame := glfwGetTime in
  let vm := mkView (g_pCamera vm) (gLastX vm) (gLastY vm) (gFirstMouse vm)
                   (currentFrame - gLastFrame vm) currentFrame
                   (bOrthographicProjection vm) (windowShouldClose vm) in
  let vm := ProcessKeyboardEvents keys vm in
  let view := GetViewMatrix (g_pCamera vm) in
  let projection :=
    if bOrthographicProjection vm then
      let orthoScale := 10.0 in
      ortho (- orthoScale) orthoScale (- orthoScale) orthoScale 0.1 100.0
    else
      perspective (radians (Zoom (g_pCamera vm)))
                  (IZR WINDOW_WIDTH / IZR WINDOW_HEIGHT) 0.1 100.0 in
  match pShaderManager with
  | Some sh =>
      let sh := setMat4Value g_ViewName view sh in
      let sh := setMat4Value g_ProjectionName projection sh in
      let sh := setVec3Value "spotLight.position" (Position (g_pCamera vm)) sh in
      let sh := setVec3Value "spotLight.direction" (Front (g_pCamera vm)) sh in
      (vm, Some sh)
  | None => (vm, None)
  end.

(** What the window system delivers to the view manager: a mouse move, or
    a frame (the time and the key states at that frame). *)
Inductive ViewEvent : Type :=
  | MouseMove (x y : R)
  | Frame (time : R) (keys : KeyState).

Definition view_step (s : ViewManager * option ShaderManager) (e : ViewEvent)
    : ViewManager * option ShaderManager :=
  match e with
  | MouseMove x y => (Mouse_Position_Callback x y s.1, s.2)
  | Frame time keys => PrepareSceneView time keys s.2 s.1
  end.

(** A run of events, oldest first. *)
Definition view_run (events : list ViewEvent)
    (s : ViewManager * option ShaderManager)
    : ViewManager * option ShaderManager := foldl view_step s events.

(** The position of the latest mouse move of a run, if there is one. *)
Fixpoint last_mouse (events : list ViewEvent) : option (R * R) :=
  match events with
  | [] => None
  | MouseMove x y :: events =>
      match last_mouse events with
      | Some p => Some p
      | None => Some (x, y)
      end
  | Frame _ _ :: events => last_mouse events
  end.

(** The time of the latest frame of a run, if there is one. *)
Fixpoint last_frame (events : list ViewEvent) : option R :=
  match events with
  | [] => None
  | Frame time _ :: events =>
      match last_frame events with
      | Some t => Some t
      | None => Some time
      end
  | MouseMove _ _ :: events => last_frame events
  end.

(** The offsets a run of mouse moves hands to the camera: (0, 0) for the
    event that finds [gFirstMouse] set, then the differences between
    consecutive positions, the vertical one reversed. *)
Fixpoint mouse_offsets (firstMouse : bool) (lastX lastY : R)
    (events : list (R * R)) : list (R * R) :=
  match events with
  | [] => []
  | (x, y) :: events =>
      (if firstMouse then (0, 0) else (x - lastX, lastY - y))
        :: mouse_offsets false x y events
  end.

(** The camera movements of the keys held in a poll, in the order
    [ProcessKeyboardEvents] tests them. *)
Definition movement_key (direction : Camera_Movement) : Key :=
  match direction with
  | FORWARD => GLFW_KEY_W
  | BACKWARD => GLFW_KEY_S
  | LEFT => GLFW_KEY_A
  | RIGHT => GLFW_KEY_D
  | UP => GLFW_KEY_Q
  | DOWN => GLFW_KEY_E
  end.

Definition held_movements (keys : KeyState) : list Camera_Movement :=
  filter (fun d => keys (movement_key d) = true)
         [FORWARD; BACKWARD; LEFT; RIGHT; UP; DOWN].

End ViewPreparation.

(** ** Rendering the scene *)

Section SceneRendering.
Local Open Scope R_scope.

(** One pass of the loop over the four table legs; the loop state is
    [(i, scene manager, mesh calls)]. *)
Definition RenderScene_leg (scaleLeg : vec3) (legPositions : list vec3)
    (s : Z * SceneManager * list MeshCall)
    : outcome (Z * SceneManager * list MeshCall) :=
  let '(i, sm, meshes) := s in
  p ← array_get legPositions i;
  let sm := SetTransformations scaleLeg 0.0 0.0 0.0 p sm in
  sm ← SetShaderTexture "wood" sm;
  Done (int_incr i, sm, DrawMesh CylinderMesh sm meshes).

(** [SceneManager::RenderScene].  [uninitialised k] stands for what the
    uninitialised local of the k-th [SetShaderMaterial] call holds. *)
Definition RenderScene (uninitialised : nat -> OBJECT_MATERIAL)
    (sm : SceneManager) (meshes : list MeshCall)
    : outcome (SceneManager * list MeshCall) :=
  (* the table top *)
  let scaleXYZ := Vec3 40.0 0.5 20.0 in
  let XrotationDegrees := 0.0 in
  let YrotationDegrees := 0.0 in
  let ZrotationDegrees := 0.0 in
  let positionXYZ := Vec3 0.0 0.0 0.0 in
  let sm := SetTransformations scaleXYZ XrotationDegrees YrotationDegrees
              ZrotationDegrees positionXYZ sm in
  sm ← SetShaderMaterial "wood" (uninitialised 0%nat) sm;
  sm ← SetShaderTexture "marble" sm;
  let meshes := DrawMesh BoxMesh sm meshes in
  (* the table legs *)
  let tableHeight := 3.0 in
  let scaleLeg := Vec3 0.3 tableHeight 0.3 in
  let tableWidth := 40.0 in
  let tableDepth := 20.0 in
  let legOffsetX := x3 scaleLeg * 2.0 in
  let legOffsetZ := z3 scaleLeg * 1.5 in
  let legPositions :=
    [Vec3 (- tableWidth / 2.0 + legOffsetX) (- tableHeight / 1.0)
          (- tableDepth / 2.0 + legOffsetZ);
     Vec3 (tableWidth / 2.0 - legOffsetX) (- tableHeight / 1.0)
          (- tableDepth / 2.0 + legOffsetZ);
     Vec3 (- tableWidth / 2.0 + legOffsetX) (- tableHeight / 1.0)
          (tableDepth / 2.0 - legOffsetZ);
     Vec3 (tableWidth / 2.0 - legOffsetX) (- tableHeight / 1.0)
          (tableDepth / 2.0 - legOffsetZ)] in
  s ← while 4 (fun s : Z * SceneManager * list MeshCall => (s.1.1 <? 4)%Z)
        (RenderScene_leg scaleLeg legPositions) (0%Z, sm, meshes);
  let sm := s.1.2 in
  let meshes := s.2 in
  (* the body of the bowl *)
  let scaleCylinderBody := Vec3 1.5 0.9 1.5 in
  let positionCylinderBody := Vec3 0.0 0.0 0.0 in
  let sm := SetTransformations scaleCylinderBody 0.0 0.0 0.0
              positionCylinderBody sm in
  let sm := SetShaderColor 1 1 1 1 sm in
  sm ← SetShaderMaterial "plastic" (uninitialised 1%nat) sm;
  let meshes := DrawMesh CylinderMesh sm meshes in
  (* the upper slope of the bowl *)
  let scaleTaperedCylinder := Vec3 2.0 0.3 2.0 in
  let positionTaperedCylinder := Vec3 0.0 1.0 0.0 in
  let rotationDegrees := 180.0 in
  let sm := SetTransformations scaleTaperedCylinder rotationDegrees 0.0 0.0
              positionTaperedCylinder sm in
  sm ← SetShaderMaterial "stone" (uninitialised 2%nat) sm;
  sm ← SetShaderTexture "marble" sm;
  let meshes := DrawMesh TaperedCylinderMesh sm meshes in
  (* the microwave body *)
  let scaleMicrowaveBody := Vec3 9.5 5.2 5.5 in
  let positionMicrowaveBody := Vec3 10.0 3.0 0.0 in
  let sm := SetTransformations scaleMicrowaveBody 0.0 0.0 0.0
              positionMicrowaveBody sm in
  sm ← SetShaderMaterial "plastic" (uninitialised 3%nat) sm;
  let sm := SetShaderColor 0.5 0.5 0.5 1.0 sm in
  let meshes := DrawMesh BoxMesh sm meshes in
  (* the microwave front panel *)
  let scaleMicrowaveFront := Vec3 9.5 5.2 0.1 in
  let positionMicrowaveFront := Vec3 10.0 3.0 2.8 in
  let sm := SetTransformations scaleMicrowaveFront 0.0 0.0 0.0
              positionMicrowaveFront sm in
  sm ← SetShaderMaterial "plastic" (uninitialised 4%nat) sm;
  sm ← SetShaderTexture "marble" sm;
  let meshes := DrawMesh BoxMesh sm meshes in
  (* the microwave control panel *)
  let scaleMicrowavePanel := Vec3 0.3 0.7 1.5 in
  let positionMicrowavePanel := Vec3 13.2 1.3 2.85 in
  let sm := SetTransformations scaleMicrowavePanel 0.0 90.0 0.0
              positionMicrowavePanel sm in
  sm ← SetShaderMaterial "plastic" (uninitialised 5%nat) sm;
  sm ← SetShaderTexture "wood" sm;
  let meshes := DrawMesh BoxMesh sm meshes in
  (* the ice maker body *)
  let scaleIceMakerBody := Vec3 4.5 5.0 4.2 in
  let positionIceMakerBody := Vec3 (-5.0) 2.7 0.0 in
  let sm := SetTransformations scaleIceMakerBody 0.0 0.0 0.0
              positionIceMakerBody sm in
  sm ← SetShaderMaterial "plastic" (uninitialised 6%nat) sm;
  let sm := SetShaderColor 0.8 0.1 0.1 1.0 sm in
  let meshes := DrawMesh BoxMesh sm meshes in
  (* the ice maker front *)
  let scaleIceMakerFrontCylinder := Vec3 2.27 5.0 1.8 in
  let positionIceMakerFrontCylinder := Vec3 (-5.0) 0.2 1.96 in
  let sm := SetTransformations scaleIceMakerFrontCylinder 0.0 0.0 0.0
              positionIceMakerFrontCylinder sm in
  sm ← SetShaderMaterial "plastic" (uninitialised 7%nat) sm;
  let sm := SetShaderColor 0.8 0.1 0.1 1.0 sm in
  let meshes := DrawMesh CylinderMesh sm meshes in
  (* the pitcher body *)
  let scalePitcherBody := Vec3 1.0 2.5 1.0 in
  let positionPitcherBody := Vec3 1.5 0.0 (-4.0) in
  let sm := SetTransformations scalePitcherBody 0.0 0.0 0.0
              positionPitcherBody sm in
  sm ← SetShaderMaterial "plastic" (uninitialised 8%nat) sm;
  let sm := SetShaderColor 0.4 0.9 0.9 4.0 sm in
  let meshes := DrawMesh CylinderMesh sm meshes in
  (* the pitcher spout *)
  let scalePitcherSpout := Vec3 0.2 0.3 0.3 in
  let positionPitcherSpout := Vec3 1.5 1.9 (-3.2) in
  let sm := SetTransformations scalePitcherSpout 45.0 0.0 0.0
              positionPitcherSpout sm in
  sm ← SetShaderMaterial "plastic" (uninitialised 9%nat) sm;
  let sm := SetShaderColor 0.4 0.9 0.9 4.0 sm in
  let meshes := DrawMesh CylinderMesh sm meshes in
  Done (sm, meshes).

End SceneRendering.

(** ** Names used in the statements about preparing and rendering *)

(** Whether [CreateGLTexture] accepts a file: it decodes, to 3 or 4
    channels. *)
Definition decodes (stbi_load : string -> option Image) (filename : string)
    : bool :=
  match stbi_load filename with
  | Some image => (img_channels image =? 3)%Z || (img_channels image =? 4)%Z
  | None => false
  end.

(** The latest value a log of writes gives to a key. *)
Fixpoint last_write (name : string) (ws : ShaderManager)
    : option uniform_value :=
  match ws with
  | [] => None
  | (k, v) :: ws =>
      match last_write name ws with
      | Some v' => Some v'
      | None => if String.eqb k name then Some v else None
      end
  end.

(** The scene manager after [PrepareScene] with both images decoded:
    "marble" in slot 0, "wood" in slot 1, the three materials, and a shader
    manager with any history. *)
Definition prepared_scene (sh : ShaderManager) : SceneManager :=
  mkScene (Some sh)
    ([Tex.mk 1 "marble"; Tex.mk 2 "wood"] ++ replicate 14 (Tex.mk 0 ""))
    2 [plasticMaterial; woodMaterial; stoneMaterial].

(** What a draw call is made with: the mesh, and the use-texture flag, the
    sampler and the material shininess the shader holds at the call. *)
Definition draw_summary (c : MeshCall)
    : option (Mesh * option uniform_value * option uniform_value
              * option uniform_value) :=
  match c with
  | DrawMesh_call m (Some sh) =>
      Some (m, uniforms sh !! g_UseTextureName,
            uniforms sh !! g_TextureValueName,
            uniforms sh !! "material.shininess")
  | _ => None
  end.

Definition textured (m : Mesh) (slot : Z) (material : OBJECT_MATERIAL) :=
  Some (m, Some (UInt 1), Some (USampler2D slot),
        Some (UFloat (Mat.shininess material))).
Definition flat_coloured (m : Mesh) (stale_slot : Z) (material : OBJECT_MATERIAL) :=
  Some (m, Some (UInt 0), Some (USampler2D stale_slot),
        Some (UFloat (Mat.shininess material))).

(** The shader manager after a list of writes, made in order. *)
Definition write_all (ws : ShaderManager) (sh : ShaderManager) : ShaderManager :=
  foldl (fun sh kv => set_uniform kv.1 kv.2 sh) sh ws.

(** * Proofs *)

(** ** Machine integers *)

Lemma int_wrap_small (z : Z) : in_int z -> int_wrap z = z.
Proof.
  unfold in_int, INT_MIN, INT_MAX, int_wrap. intros H.
  rewrite Z.mod_small; lia.
Qed.

Lemma int_incr_small (i : Z) : (0 <= i < INT_MAX)%Z -> int_incr i = (i + 1)%Z.
Proof.
  unfold INT_MAX. intros H. apply int_wrap_small.
  unfold in_int, INT_MIN, INT_MAX. lia.
Qed.

Lemma size_t_of_int_small (i : Z) : (0 <= i <= INT_MAX)%Z -> size_t_of_int i = i.
Proof.
  unfold INT_MAX, size_t_of_int. intros H. apply Z.mod_small. lia.
Qed.

Lemma compare_is_0_true (a b : string) : compare_is_0 a b = true <-> a = b.
Proof.
  unfold compare_is_0. split.
  - destruct (String.compare a b) eqn:E; try discriminate.
    intros _. now apply String.compare_eq_iff.
  - intros ->. pose proof (String.compare_antisym b b) as H.
    destruct (String.compare b b); simpl in H; congruence.
Qed.

Lemma compare_is_0_false (a b : string) : compare_is_0 a b = false <-> a <> b.
Proof.
  rewrite <- compare_is_0_true. destruct (compare_is_0 a b); split; congruence.
Qed.

(** ** The transform engine *)

Section TransformProofs.
Import TransformSpec.
Local Open Scope R_scope.

Lemma radians_deg (d : R) : radians d = deg d.
Proof. unfold radians, deg. field. Qed.

Lemma Vec3_eq (a b c a' b' c' : R) :
  a = a' -> b = b' -> c = c' -> Vec3 a b c = Vec3 a' b' c'.
Proof. now intros -> -> ->. Qed.

Lemma Vec4_eq (a b c d a' b' c' d' : R) :
  a = a' -> b = b' -> c = c' -> d = d' -> Vec4 a b c d = Vec4 a' b' c' d'.
Proof. now intros -> -> -> ->. Qed.

Lemma Mat4_eq (a b c d a' b' c' d' : vec4) :
  a = a' -> b = b' -> c = c' -> d = d' -> Mat4 a b c d = Mat4 a' b' c' d'.
Proof. now intros -> -> -> ->. Qed.

(** Unfold the vector and matrix operations down to the entries, never
    the operations on real numbers. *)
Ltac entries :=
  cbv [mat4_mul mat4_mul_vec4 vec4_add vec4_scale vec3_scale vec3_add
       mat4_identity col0 col1 col2 col3 x4 y4 z4 w4 x3 y3 z3 dot].

Ltac unit_axis :=
  unfold normalize; entries;
  match goal with
  | |- context [sqrt ?e] => replace e with 1 by ring
  end;
  rewrite sqrt_1; apply Vec3_eq; field.

Lemma normalize_X : normalize (Vec3 1 0 0) = Vec3 1 0 0.
Proof. unit_axis. Qed.
Lemma normalize_Y : normalize (Vec3 0 1 0) = Vec3 0 1 0.
Proof. unit_axis. Qed.
Lemma normalize_Z : normalize (Vec3 0 0 1) = Vec3 0 0 1.
Proof. unit_axis. Qed.

Ltac mat_eq := entries; apply Mat4_eq; apply Vec4_eq; ring.
Ltac vec_eq := entries; apply Vec4_eq; ring.

Lemma scale_is_Scale (s : vec3) : glm.scale s = Scale s.
Proof. unfold glm.scale, scale_mat, Scale. mat_eq. Qed.

Lemma translate_is_Translation (t : vec3) : glm.translate t = Translation t.
Proof. unfold glm.translate, translate_mat, Translation. mat_eq. Qed.

Lemma rotate_X_is_RotationX (d : R) :
  glm.rotate (radians d) (Vec3 1 0 0) = RotationX d.
Proof.
  unfold glm.rotate, rotate_mat, RotationX.
  rewrite normalize_X, radians_deg. mat_eq.
Qed.

Lemma rotate_Y_is_RotationY (d : R) :
  glm.rotate (radians d) (Vec3 0 1 0) = RotationY d.
Proof.
  unfold glm.rotate, rotate_mat, RotationY.
  rewrite normalize_Y, radians_deg. mat_eq.
Qed.

Lemma rotate_Z_is_RotationZ (d : R) :
  glm.rotate (radians d) (Vec3 0 0 1) = RotationZ d.
Proof.
  unfold glm.rotate, rotate_mat, RotationZ.
  rewrite normalize_Z, radians_deg. mat_eq.
Qed.

Lemma mat4_mul_assoc (a b c : mat4) :
  mat4_mul (mat4_mul a b) c = mat4_mul a (mat4_mul b c).
Proof. destruct a as [[] [] [] []], b as [[] [] [] []], c as [[] [] [] []]. mat_eq. Qed.

Lemma mat4_mul_vec4_mul (a b : mat4) (v : vec4) :
  mat4_mul_vec4 (mat4_mul a b) v = mat4_mul_vec4 a (mat4_mul_vec4 b v).
Proof. destruct a as [[] [] [] []], b as [[] [] [] []], v. vec_eq. Qed.

Lemma modelView_is_Compute (s : vec3) (rx ry rz : R) (t : vec3) :
  modelView s rx ry rz t = Compute s rx ry rz t.
Proof.
  unfold modelView, Compute.
  rewrite scale_is_Scale, translate_is_Translation, rotate_X_is_RotationX,
    rotate_Y_is_RotationY, rotate_Z_is_RotationZ.
  now rewrite !mat4_mul_assoc.
Qed.

Lemma Compute_on_point (s : vec3) (rx ry rz : R) (t p : vec3) :
  mat4_mul_vec4 (Compute s rx ry rz t) (homogeneous p) =
  homogeneous
    (move_point t (turn_about_Z rz (turn_about_Y ry (turn_about_X rx (scale_point s p))))).
Proof.
  unfold Compute. rewrite !mat4_mul_vec4_mul.
  unfold homogeneous, move_point, turn_about_Z, turn_about_Y, turn_about_X,
    scale_point, Translation, RotationZ, RotationY, RotationX, Scale.
  destruct s, t, p. vec_eq.
Qed.

Lemma Compute_identity :
  Compute (Vec3 1 1 1) 0 0 0 (Vec3 0 0 0) = mat4_identity.
Proof.
  unfold Compute, Translation, RotationZ, RotationY, RotationX, Scale, deg.
  replace (0 * PI / 180) with 0 by field.
  rewrite cos_0, sin_0. mat_eq.
Qed.

End TransformProofs.

(** ** Loops *)

Lemma while_exit {S : Type} (fuel : nat) (cond : S -> bool)
    (body : S -> outcome S) (s : S) :
  cond s = false -> while fuel cond body s = Done s.
Proof. intros H. destruct fuel; simpl; now rewrite H. Qed.

Lemma while_iter {S : Type} (fuel : nat) (cond : S -> bool)
    (body : S -> outcome S) (s s' : S) :
  cond s = true -> body s = Done s' ->
  while (Datatypes.S fuel) cond body s = while fuel cond body s'.
Proof. intros Hc Hb. simpl. now rewrite Hc, Hb. Qed.

(** [k] iterations that run through the states [step 0], ..., [step k]. *)
Lemma while_steps {S : Type} (cond : S -> bool) (body : S -> outcome S)
    (k fuel : nat) (step : nat -> S) :
  (forall j, (j < k)%nat ->
     cond (step j) = true /\ body (step j) = Done (step (Datatypes.S j))) ->
  while (k + fuel) cond body (step 0%nat) = while fuel cond body (step k).
Proof.
  revert step. induction k as [|k IH]; intros step H; [reflexivity|].
  destruct (H 0%nat) as [Hc Hb]; [lia|].
  change (Datatypes.S k + fuel)%nat with (Datatypes.S (k + fuel)).
  rewrite (while_iter _ _ _ _ _ Hc Hb).
  apply (IH (fun j => step (Datatypes.S j))).
  intros j Hj. apply H. lia.
Qed.

(** ** Array access *)

Lemma array_get_lookup {A : Type} (arr : list A) (i : nat) (a : A) :
  arr !! i = Some a -> array_get arr (Z.of_nat i) = Done a.
Proof.
  intros H. unfold array_get.
  destruct (Z.leb_spec 0 (Z.of_nat i)); [|lia].
  now rewrite Nat2Z.id, H.
Qed.

Lemma array_get_beyond {A : Type} (arr : list A) (i : Z) :
  (Z.of_nat (length arr) <= i)%Z -> array_get arr i = Undefined OutOfBounds.
Proof.
  intros H. unfold array_get.
  destruct (Z.leb_spec 0 i); [|reflexivity].
  rewrite (proj2 (lookup_ge_None arr (Z.to_nat i))); [reflexivity | lia].
Qed.

Lemma array_set_inside {A : Type} (arr : list A) (i : nat) (a : A) :
  (i < length arr)%nat ->
  array_set arr (Z.of_nat i) a = Done (<[i := a]> arr).
Proof.
  intros H. unfold array_set.
  destruct (Z.leb_spec 0 (Z.of_nat i)); [|lia].
  destruct (Z.ltb_spec (Z.of_nat i) (Z.of_nat (length arr))); [|lia].
  simpl. now rewrite Nat2Z.id.
Qed.

(** ** The texture lookups *)

Lemma loaded_lookup (sm : SceneManager) (i : nat) (e : TEXTURE_INFO) :
  loaded sm !! i = Some e <->
  m_textureIDs sm !! i = Some e /\ (Z.of_nat i < m_loadedTextures sm)%Z.
Proof. unfold loaded. rewrite lookup_take_Some. intuition lia. Qed.

Lemma loaded_length (sm : SceneManager) :
  registry_ok sm -> length (loaded sm) = Z.to_nat (m_loadedTextures sm).
Proof.
  intros [Hlen Hn]. unfold loaded. apply length_take_le. rewrite Hlen.
  unfold MAX_TEXTURES in *. lia.
Qed.

Lemma int_incr_slot (j : nat) :
  (j < MAX_TEXTURES)%nat -> int_incr (Z.of_nat j) = Z.of_nat (S j).
Proof.
  unfold MAX_TEXTURES. intros H.
  rewrite int_incr_small; [lia | unfold INT_MAX; lia].
Qed.

Section TextureScan.
Local Open Scope Z_scope.

(** The two lookups differ in what they return on a hit only. *)
Variable sm : SceneManager.
Variable tag : string.
Variable hit : TEXTURE_INFO -> Z -> Z.
Variable body : Z * Z * bool -> outcome (Z * Z * bool).
Hypothesis body_eq : forall t index b,
  body (t, index, b) =
  (e ← array_get (m_textureIDs sm) index;
   if compare_is_0 (Tex.tag e) tag
   then Done (hit e index, index, true)
   else Done (t, int_incr index, b)).
Hypothesis Hok : registry_ok sm.

Let skip (t : Z) (j : nat) : Z * Z * bool := (t, Z.of_nat j, false).

Lemma scan_skips (t : Z) (k : nat) :
  (Z.of_nat k <= m_loadedTextures sm) ->
  (forall j e', (j < k)%nat -> loaded sm !! j = Some e' -> Tex.tag e' <> tag) ->
  forall j, (j < k)%nat ->
    FindTexture_cond sm (skip t j) = true /\
    body (skip t j) = Done (skip t (S j)).
Proof.
  intros Hk Hmiss j Hj. destruct Hok as [Hlen Hn].
  assert (Hjn : Z.of_nat j < m_loadedTextures sm) by lia.
  assert (Hj16 : (j < MAX_TEXTURES)%nat) by lia.
  destruct (lookup_lt_is_Some_2 (m_textureIDs sm) j) as [e He]; [lia|].
  split.
  - unfold skip, FindTexture_cond. simpl.
    destruct (Z.ltb_spec (Z.of_nat j) (m_loadedTextures sm)); [reflexivity | lia].
  - unfold skip. rewrite body_eq, (array_get_lookup _ _ _ He). simpl.
    assert (Hne : Tex.tag e <> tag).
    { apply (Hmiss j e Hj). apply loaded_lookup. split; assumption. }
    apply compare_is_0_false in Hne. rewrite Hne.
    now rewrite int_incr_slot.
Qed.

Lemma scan_miss :
  (forall j e', loaded sm !! j = Some e' -> Tex.tag e' <> tag) ->
  while (S (Z.to_nat (m_loadedTextures sm))) (FindTexture_cond sm) body
        (-1, 0, false) = Done (-1, m_loadedTextures sm, false).
Proof.
  intros Hmiss. destruct Hok as [Hlen Hn].
  set (n := Z.to_nat (m_loadedTextures sm)).
  replace (S n) with (n + 1)%nat by lia.
  change (-1, 0, false) with (skip (-1) 0).
  rewrite (while_steps _ _ n 1 (skip (-1))).
  - unfold skip. replace (Z.of_nat n) with (m_loadedTextures sm) by lia.
    apply while_exit. unfold FindTexture_cond.
    now rewrite Z.ltb_irrefl.
  - apply scan_skips; [lia|]. intros j e' _. apply Hmiss.
Qed.

Lemma scan_hit (i : nat) (e : TEXTURE_INFO) :
  first_texture_at tag (loaded sm) i e ->
  while (S (Z.to_nat (m_loadedTextures sm))) (FindTexture_cond sm) body
        (-1, 0, false) = Done (hit e (Z.of_nat i), Z.of_nat i, true).
Proof.
  intros (Hi & Htag & Hfirst). destruct Hok as [Hlen Hn].
  apply loaded_lookup in Hi as [Hi Hin].
  set (n := Z.to_nat (m_loadedTextures sm)).
  replace (S n) with (i + S (n - i))%nat by lia.
  change (-1, 0, false) with (skip (-1) 0).
  rewrite (while_steps _ _ i (S (n - i)) (skip (-1))).
  - assert (Hb : body (skip (-1) i) = Done (hit e (Z.of_nat i), Z.of_nat i, true)).
    { unfold skip. rewrite body_eq, (array_get_lookup _ _ _ Hi). simpl.
      now rewrite (proj2 (compare_is_0_true _ _) Htag). }
    assert (Hc : FindTexture_cond sm (skip (-1) i) = true).
    { unfold skip, FindTexture_cond.
      destruct (Z.ltb_spec (Z.of_nat i) (m_loadedTextures sm)); [reflexivity | lia]. }
    rewrite (while_iter _ _ _ _ _ Hc Hb).
    apply while_exit. unfold FindTexture_cond. apply andb_false_r.
  - apply scan_skips; [lia|]. exact Hfirst.
Qed.

End TextureScan.

Lemma FindTextureID_miss (tag : string) (sm : SceneManager) :
  registry_ok sm ->
  (forall j e', loaded sm !! j = Some e' -> Tex.tag e' <> tag) ->
  FindTextureID tag sm = Done (-1)%Z.
Proof.
  intros Hok Hmiss. unfold FindTextureID.
  now rewrite (scan_miss sm tag (fun e _ => int_wrap (Tex.ID e)) _
                 (fun _ _ _ => eq_refl) Hok Hmiss).
Qed.

Lemma FindTextureSlot_miss (tag : string) (sm : SceneManager) :
  registry_ok sm ->
  (forall j e', loaded sm !! j = Some e' -> Tex.tag e' <> tag) ->
  FindTextureSlot tag sm = Done (-1)%Z.
Proof.
  intros Hok Hmiss. unfold FindTextureSlot.
  now rewrite (scan_miss sm tag (fun _ index => index) _
                 (fun _ _ _ => eq_refl) Hok Hmiss).
Qed.

Lemma FindTextureID_hit (tag : string) (sm : SceneManager) (i : nat)
    (e : TEXTURE_INFO) :
  registry_ok sm -> first_texture_at tag (loaded sm) i e ->
  FindTextureID tag sm = Done (returned_ID e).
Proof.
  intros Hok Hhit. unfold FindTextureID.
  now rewrite (scan_hit sm tag (fun e _ => int_wrap (Tex.ID e)) _
                 (fun _ _ _ => eq_refl) Hok i e Hhit).
Qed.

Lemma FindTextureSlot_hit (tag : string) (sm : SceneManager) (i : nat)
    (e : TEXTURE_INFO) :
  registry_ok sm -> first_texture_at tag (loaded sm) i e ->
  FindTextureSlot tag sm = Done (Z.of_nat i).
Proof.
  intros Hok Hhit. unfold FindTextureSlot.
  now rewrite (scan_hit sm tag (fun _ index => index) _
                 (fun _ _ _ => eq_refl) Hok i e Hhit).
Qed.

Lemma first_texture_dichotomy (tag : string) (entries : list TEXTURE_INFO) :
  (forall j e', entries !! j = Some e' -> Tex.tag e' <> tag) \/
  (exists i e, first_texture_at tag entries i e).
Proof.
  destruct (list_find (fun e => Tex.tag e = tag) entries) as [[i e]|] eqn:E.
  - right. exists i, e. apply list_find_Some in E as (Hi & Ht & Hfirst).
    repeat split; [assumption..|]. intros j e' Hj He'. eapply Hfirst; eassumption.
  - left. intros j e' He'. rewrite list_find_None, Forall_forall in E.
    apply E. eapply list_elem_of_lookup_2, He'.
Qed.

(** ** The material lookup *)

Lemma first_material_dichotomy (tag : string) (entries : list OBJECT_MATERIAL) :
  (forall j e', entries !! j = Some e' -> Mat.tag e' <> tag) \/
  (exists i e, first_material_at tag entries i e).
Proof.
  destruct (list_find (fun e => Mat.tag e = tag) entries) as [[i e]|] eqn:E.
  - right. exists i, e. apply list_find_Some in E as (Hi & Ht & Hfirst).
    repeat split; [assumption..|]. intros j e' Hj He'. eapply Hfirst; eassumption.
  - left. intros j e' He'. rewrite list_find_None, Forall_forall in E.
    apply E. eapply list_elem_of_lookup_2, He'.
Qed.

Section MaterialScan.
Local Open Scope Z_scope.

Variable sm : SceneManager.
Variable tag : string.
Hypothesis Hsize : materials_size sm <= INT_MAX.

Let skip (m : OBJECT_MATERIAL) (j : nat) : Z * bool * OBJECT_MATERIAL :=
  (Z.of_nat j, false, m).

Lemma material_index (j : nat) :
  (j <= length (m_objectMaterials sm))%nat -> size_t_of_int (Z.of_nat j) = Z.of_nat j.
Proof.
  intros H. apply size_t_of_int_small. unfold materials_size in Hsize. lia.
Qed.

Lemma material_skips (m : OBJECT_MATERIAL) (k : nat) :
  (k <= length (m_objectMaterials sm))%nat ->
  (forall j e', (j < k)%nat -> m_objectMaterials sm !! j = Some e' ->
                Mat.tag e' <> tag) ->
  forall j, (j < k)%nat ->
    FindMaterial_cond sm (skip m j) = true /\
    FindMaterial_body sm tag (skip m j) = Done (skip m (S j)).
Proof.
  intros Hk Hmiss j Hj.
  destruct (lookup_lt_is_Some_2 (m_objectMaterials sm) j) as [e He]; [lia|].
  unfold skip, FindMaterial_cond, FindMaterial_body.
  rewrite material_index by lia. split.
  - unfold materials_size.
    destruct (Z.ltb_spec (Z.of_nat j) (Z.of_nat (length (m_objectMaterials sm))));
      [reflexivity | lia].
  - rewrite (array_get_lookup _ _ _ He). simpl.
    rewrite (proj2 (compare_is_0_false _ _) (Hmiss j e Hj He)).
    rewrite int_incr_small; [do 3 f_equal; lia|].
    unfold materials_size in Hsize. lia.
Qed.

Lemma FindMaterial_empty (material : OBJECT_MATERIAL) :
  m_objectMaterials sm = [] ->
  FindMaterial tag material sm = Done (false, material).
Proof. intros H. unfold FindMaterial, materials_size. now rewrite H. Qed.

Lemma FindMaterial_nonempty_unfold (material : OBJECT_MATERIAL) :
  m_objectMaterials sm <> [] ->
  FindMaterial tag material sm =
  (s ← while (S (length (m_objectMaterials sm))) (FindMaterial_cond sm)
         (FindMaterial_body sm tag) (0, false, material);
   Done (true, s.2)).
Proof.
  intros H. unfold FindMaterial, materials_size.
  destruct (m_objectMaterials sm) eqn:E; [congruence|]. reflexivity.
Qed.

Lemma FindMaterial_miss (material : OBJECT_MATERIAL) :
  m_objectMaterials sm <> [] ->
  (forall j e', m_objectMaterials sm !! j = Some e' -> Mat.tag e' <> tag) ->
  FindMaterial tag material sm = Done (true, material).
Proof.
  intros Hne Hmiss. rewrite FindMaterial_nonempty_unfold by assumption.
  set (n := length (m_objectMaterials sm)).
  replace (S n) with (n + 1)%nat by lia.
  change (0, false, material) with (skip material 0).
  rewrite (while_steps _ _ n 1 (skip material)).
  - rewrite while_exit; [reflexivity|].
    unfold skip, FindMaterial_cond. rewrite material_index by (unfold n; lia).
    unfold materials_size. fold n. now rewrite Z.ltb_irrefl.
  - apply material_skips; [unfold n; lia|]. intros j e' _. apply Hmiss.
Qed.

Lemma FindMaterial_hit (material : OBJECT_MATERIAL) (i : nat)
    (e : OBJECT_MATERIAL) :
  first_material_at tag (m_objectMaterials sm) i e ->
  FindMaterial tag material sm = Done (true, copy_material e material).
Proof.
  intros (Hi & Htag & Hfirst).
  assert (Hlt : (i < length (m_objectMaterials sm))%nat)
    by (eapply lookup_lt_Some; eassumption).
  rewrite FindMaterial_nonempty_unfold
    by (intros E; rewrite E in Hlt; simpl in Hlt; lia).
  set (n := length (m_objectMaterials sm)) in *.
  replace (S n) with (i + S (n - i))%nat by lia.
  change (0, false, material) with (skip material 0).
  rewrite (while_steps _ _ i (S (n - i)) (skip material)).
  - assert (Hb : FindMaterial_body sm tag (skip material i) =
                 Done (Z.of_nat i, true, copy_material e material)).
    { unfold skip, FindMaterial_body. rewrite material_index by (fold n; lia).
      rewrite (array_get_lookup _ _ _ Hi). simpl.
      now rewrite (proj2 (compare_is_0_true _ _) Htag). }
    assert (Hc : FindMaterial_cond sm (skip material i) = true).
    { unfold skip, FindMaterial_cond. rewrite material_index by (fold n; lia).
      unfold materials_size. fold n.
      destruct (Z.ltb_spec (Z.of_nat i) (Z.of_nat n)); [reflexivity | lia]. }
    rewrite (while_iter _ _ _ _ _ Hc Hb).
    rewrite while_exit; [reflexivity|].
    unfold FindMaterial_cond. apply andb_false_r.
  - apply material_skips; [fold n; lia|]. exact Hfirst.
Qed.

End MaterialScan.

(** ** The uniform store *)

Lemma uniforms_set (name : string) (v : uniform_value) (sh : ShaderManager) :
  uniforms (set_uniform name v sh) = <[name := v]> (uniforms sh).
Proof. unfold uniforms, set_uniform. now rewrite foldl_snoc. Qed.

Lemma uniforms_snoc (name : string) (v : uniform_value) (sh : ShaderManager) :
  uniforms (sh ++ [(name, v)]) = <[name := v]> (uniforms sh).
Proof. apply uniforms_set. Qed.

Lemma uniforms_snoc2 (k1 k2 : string) (v1 v2 : uniform_value)
    (sh : ShaderManager) :
  uniforms (sh ++ [(k1, v1); (k2, v2)]) =
  <[k2 := v2]> (<[k1 := v1]> (uniforms sh)).
Proof.
  change [(k1, v1); (k2, v2)] with ([(k1, v1)] ++ [(k2, v2)]).
  now rewrite app_assoc, !uniforms_snoc.
Qed.

Lemma SetShaderColor_log (r g b a : R) (sh : ShaderManager)
    (arr : list TEXTURE_INFO) (n : Z) (mats : list OBJECT_MATERIAL) :
  SetShaderColor r g b a (mkScene (Some sh) arr n mats) =
  mkScene (Some (sh ++ [(g_UseTextureName, UInt 0);
                        (g_ColorValueName, UVec4 (Vec4 r g b a))])) arr n mats.
Proof.
  unfold SetShaderColor, set_shader, setVec4Value, setIntValue, set_uniform.
  simpl. now rewrite <- app_assoc.
Qed.

Lemma SetShaderTexture_log (tag : string) (sh : ShaderManager)
    (arr : list TEXTURE_INFO) (n : Z) (mats : list OBJECT_MATERIAL) (slot : Z) :
  FindTextureSlot tag (mkScene (Some sh) arr n mats) = Done slot ->
  SetShaderTexture tag (mkScene (Some sh) arr n mats) =
  Done (mkScene (Some (sh ++ [(g_UseTextureName, UInt 1);
                              (g_TextureValueName, USampler2D slot)])) arr n mats).
Proof.
  intros H. unfold SetShaderTexture. simpl m_pShaderManager. rewrite H.
  unfold set_shader, setSampler2DValue, setIntValue, set_uniform.
  simpl. now rewrite <- app_assoc.
Qed.

(** Whatever the registry holds, a call of [SetShaderTexture] that returns
    has written the flag as 1. *)
Lemma SetShaderTexture_flag (tag : string) (sm sm' : SceneManager)
    (sh : ShaderManager) :
  m_pShaderManager sm = Some sh ->
  SetShaderTexture tag sm = Done sm' ->
  shader_uniforms sm' !! g_UseTextureName = Some (UInt 1).
Proof.
  intros Hsh. unfold SetShaderTexture. rewrite Hsh.
  destruct (FindTextureSlot tag sm) as [slot|f]; simpl; [|discriminate].
  intros [= <-]. unfold shader_uniforms, set_shader. simpl.
  unfold setSampler2DValue, setIntValue. rewrite !uniforms_set.
  rewrite lookup_insert_ne by discriminate. apply lookup_insert_eq.
Qed.

(** [SetShaderMaterial] writes the three material uniforms or nothing. *)
Lemma SetShaderMaterial_other_uniforms (tag : string)
    (uninitialised : OBJECT_MATERIAL) (sm sm' : SceneManager) (name : string) :
  name <> "material.diffuseColor" -> name <> "material.specularColor" ->
  name <> "material.shininess" ->
  SetShaderMaterial tag uninitialised sm = Done sm' ->
  shader_uniforms sm' !! name = shader_uniforms sm !! name.
Proof.
  intros H1 H2 H3. unfold SetShaderMaterial.
  destruct (materials_size sm >? 0)%Z; [|now intros [= <-]].
  destruct (FindMaterial tag uninitialised sm) as [[b m]|f]; simpl;
    [|discriminate].
  destruct b; [|now intros [= <-]].
  unfold shader_uniforms.
  destruct (m_pShaderManager sm) as [sh|]; [|discriminate].
  intros [= <-]. simpl. unfold setFloatValue, setVec3Value.
  rewrite !uniforms_set. now rewrite !lookup_insert_ne by congruence.
Qed.

(** ** C10 *)

(** C10. Every call of [SetShaderColor] with a non-null shader manager
    writes the use-texture flag as false (0) and then the colour, in this
    order and nothing else; so the store seen by the next draw call has
    texturing off, calls that set the transform, the UV scale or the
    material keep it off, and the next [SetShaderTexture] turns it on
    again. *)
Theorem SetShaderColor_disables_texturing :
  forall (r g b a : R) (sh : ShaderManager) (arr : list TEXTURE_INFO) (n : Z)
         (mats : list OBJECT_MATERIAL),
    let sm := mkScene (Some sh) arr n mats in
    let sm' := SetShaderColor r g b a sm in
    m_pShaderManager sm' =
      Some (sh ++ [(g_UseTextureName, UInt 0);
                   (g_ColorValueName, UVec4 (Vec4 r g b a))]) /\
    m_textureIDs sm' = arr /\ m_loadedTextures sm' = n /\
    m_objectMaterials sm' = mats /\
    shader_uniforms sm' !! g_UseTextureName = Some (UInt 0) /\
    shader_uniforms sm' !! g_ColorValueName = Some (UVec4 (Vec4 r g b a)) /\
    (forall s rx ry rz t,
       shader_uniforms (SetTransformations s rx ry rz t sm') !! g_UseTextureName
       = Some (UInt 0)) /\
    (forall u v,
       shader_uniforms (SetTextureUVScale u v sm') !! g_UseTextureName
       = Some (UInt 0)) /\
    (forall tag uninitialised,
       match SetShaderMaterial tag uninitialised sm' with
       | Done sm'' => shader_uniforms sm'' !! g_UseTextureName = Some (UInt 0)
       | Undefined _ => True
       end) /\
    (forall tag,
       match SetShaderTexture tag sm' with
       | Done sm'' => shader_uniforms sm'' !! g_UseTextureName = Some (UInt 1)
       | Undefined _ => True
       end).
Proof.
  intros r g b a sh arr n mats sm sm'. subst sm sm'.
  rewrite SetShaderColor_log. simpl.
  assert (Hflag : uniforms (sh ++ [(g_UseTextureName, UInt 0);
                                   (g_ColorValueName, UVec4 (Vec4 r g b a))])
                  !! g_UseTextureName = Some (UInt 0)).
  { rewrite uniforms_snoc2, lookup_insert_ne by discriminate.
    apply lookup_insert_eq. }
  repeat split; try reflexivity.
  - exact Hflag.
  - unfold shader_uniforms. simpl. rewrite uniforms_snoc2. apply lookup_insert_eq.
  - intros. unfold SetTransformations, shader_uniforms, set_shader. simpl.
    unfold setMat4Value. rewrite uniforms_set, lookup_insert_ne by discriminate.
    exact Hflag.
  - intros. unfold SetTextureUVScale, shader_uniforms, set_shader. simpl.
    unfold setVec2Value. rewrite uniforms_set, lookup_insert_ne by discriminate.
    exact Hflag.
  - intros tag uninit.
    destruct (SetShaderMaterial tag uninit _) as [sm''|f] eqn:E; [|exact I].
    rewrite (SetShaderMaterial_other_uniforms tag uninit _ sm''
               g_UseTextureName) by (discriminate || exact E).
    exact Hflag.
  - intros tag.
    destruct (SetShaderTexture tag _) as [sm''|f] eqn:E; [|exact I].
    eapply SetShaderTexture_flag; [|exact E]. reflexivity.
Qed.

(** ** C3 *)

Lemma SetShaderMaterial_log (tag : string) (uninitialised material : OBJECT_MATERIAL)
    (sh : ShaderManager) (arr : list TEXTURE_INFO) (n : Z)
    (mats : list OBJECT_MATERIAL) :
  mats <> [] ->
  FindMaterial tag uninitialised (mkScene (Some sh) arr n mats)
    = Done (true, material) ->
  SetShaderMaterial tag uninitialised (mkScene (Some sh) arr n mats) =
  Done (mkScene
          (Some (sh ++ [("material.diffuseColor", UVec3 (Mat.diffuseColor material));
                        ("material.specularColor", UVec3 (Mat.specularColor material));
                        ("material.shininess", UFloat (Mat.shininess material))]))
          arr n mats).
Proof.
  intros Hne Hfind. unfold SetShaderMaterial. rewrite Hfind.
  unfold materials_size. simpl m_objectMaterials.
  destruct mats as [|m mats]; [congruence|]. simpl.
  unfold set_shader, setFloatValue, setVec3Value, set_uniform. simpl.
  now rewrite <- !app_assoc.
Qed.

Lemma SetShaderMaterial_empty (tag : string) (uninitialised : OBJECT_MATERIAL)
    (sh : option ShaderManager) (arr : list TEXTURE_INFO) (n : Z) :
  SetShaderMaterial tag uninitialised (mkScene sh arr n []) =
  Done (mkScene sh arr n []).
Proof. reflexivity. Qed.

(** The registry and the catalogue of [scene_in_use] are what
    [LoadSceneTextures] (both files decodable) and [DefineObjectMaterials]
    build from the empty scene. *)
Lemma scene_in_use_textures :
  exists gl,
    LoadSceneTextures every_file_rgb (SceneManager_new None) GL_new =
    Done (mkScene None
            ([Tex.mk 1 "marble"; Tex.mk 2 "wood"] ++ replicate 14 (Tex.mk 0 ""))
            2 [], gl).
Proof. eexists. vm_compute. reflexivity. Qed.

Lemma scene_in_use_materials (sh : option ShaderManager) :
  m_objectMaterials (DefineObjectMaterials (SceneManager_new sh)) =
  m_objectMaterials scene_in_use.
Proof. reflexivity. Qed.

Lemma scene_in_use_ok : registry_ok scene_in_use.
Proof. split; [reflexivity | simpl; unfold MAX_TEXTURES; lia]. Qed.

Lemma scene_in_use_no_granite (j : nat) (e' : TEXTURE_INFO) :
  loaded scene_in_use !! j = Some e' -> Tex.tag e' <> "granite".
Proof.
  destruct j as [|[|j]]; simpl; intros [= <-]; discriminate.
Qed.

Lemma scene_in_use_no_granite_material (j : nat) (e' : OBJECT_MATERIAL) :
  m_objectMaterials scene_in_use !! j = Some e' -> Mat.tag e' <> "granite".
Proof.
  destruct j as [|[|[|j]]]; simpl; intros [= <-]; discriminate.
Qed.

Ltac store_lookup :=
  unfold shader_uniforms, uniforms; simpl;
  repeat (rewrite lookup_insert_ne by discriminate);
  rewrite ?lookup_insert_eq.

(** C3, refuted as stated.  On a scene whose shader holds a flat colour
    setting (use-texture flag 0, sampler 1) and a material with shininess 1,
    selecting the absent tag "granite" changes the uniforms:
    [SetShaderTexture] turns the flag on and sets the sampler to -1, and
    [SetShaderMaterial], on the non-empty catalogue, overwrites the material
    with the contents of its uninitialised local. *)
Lemma missing_tag_changes_uniforms :
  (exists sm',
     SetShaderTexture "granite" scene_in_use = Done sm' /\
     shader_uniforms scene_in_use !! g_UseTextureName = Some (UInt 0) /\
     shader_uniforms sm' !! g_UseTextureName = Some (UInt 1) /\
     shader_uniforms scene_in_use !! g_TextureValueName = Some (USampler2D 1) /\
     shader_uniforms sm' !! g_TextureValueName = Some (USampler2D (-1)) /\
     shader_uniforms sm' <> shader_uniforms scene_in_use) /\
  (exists sm',
     SetShaderMaterial "granite" zeroed_material scene_in_use = Done sm' /\
     shader_uniforms scene_in_use !! "material.shininess" = Some (UFloat 1) /\
     shader_uniforms sm' !! "material.shininess" = Some (UFloat 0) /\
     shader_uniforms sm' <> shader_uniforms scene_in_use).
Proof.
  split.
  - eexists. split.
    { apply SetShaderTexture_log.
      apply (FindTextureSlot_miss _ _ scene_in_use_ok scene_in_use_no_granite). }
    assert (H0 : shader_uniforms scene_in_use !! g_UseTextureName = Some (UInt 0))
      by now store_lookup.
    split; [exact H0|]. split; [now store_lookup|].
    split; [now store_lookup|]. split; [now store_lookup|].
    intros E. rewrite <- E in H0. revert H0. store_lookup. discriminate.
  - eexists. split.
    { apply SetShaderMaterial_log; [discriminate|].
      apply FindMaterial_miss; [| discriminate | apply scene_in_use_no_granite_material].
      unfold materials_size, INT_MAX. simpl. lia. }
    assert (H1 : shader_uniforms scene_in_use !! "material.shininess"
                 = Some (UFloat 1)) by now store_lookup.
    split; [exact H1|]. split; [now store_lookup|].
    intros E. rewrite <- E in H1. revert H1. store_lookup.
    intros [= H]. lra.
Qed.

(** C3, amended.  For a tag that no loaded texture carries,
    [SetShaderTexture] with a non-null shader manager writes the
    use-texture flag as true (1) and the sampler as the sentinel -1, and
    leaves every other uniform as it was; [SetShaderMaterial] on an empty
    catalogue changes nothing. *)
Theorem missing_tag_fallback :
  forall (tag : string) (uninitialised : OBJECT_MATERIAL) (sh : ShaderManager)
         (arr : list TEXTURE_INFO) (n : Z) (mats : list OBJECT_MATERIAL),
    registry_ok (mkScene (Some sh) arr n mats) ->
    (forall j e', loaded (mkScene (Some sh) arr n mats) !! j = Some e' ->
                  Tex.tag e' <> tag) ->
    (exists sm',
       SetShaderTexture tag (mkScene (Some sh) arr n mats) = Done sm' /\
       m_pShaderManager sm' =
         Some (sh ++ [(g_UseTextureName, UInt 1);
                      (g_TextureValueName, USampler2D (-1))]) /\
       m_textureIDs sm' = arr /\ m_loadedTextures sm' = n /\
       m_objectMaterials sm' = mats /\
       forall name, name <> g_UseTextureName -> name <> g_TextureValueName ->
                    shader_uniforms sm' !! name = uniforms sh !! name) /\
    SetShaderMaterial tag uninitialised (mkScene (Some sh) arr n []) =
      Done (mkScene (Some sh) arr n []).
Proof.
  intros tag uninit sh arr n mats Hok Hmiss. split.
  - eexists. split.
    { apply SetShaderTexture_log. now apply FindTextureSlot_miss. }
    simpl. repeat split; try reflexivity.
    intros name H1 H2. unfold shader_uniforms. simpl.
    rewrite uniforms_snoc2.
    now rewrite !lookup_insert_ne by congruence.
  - apply SetShaderMaterial_empty.
Qed.

Lemma missing_tag_fallback_witness :
  exists sm',
    SetShaderTexture "granite" scene_in_use = Done sm' /\
    shader_uniforms sm' !! "material.shininess" = Some (UFloat 1).
Proof.
  destruct (missing_tag_fallback "granite" zeroed_material shader_in_use
              (m_textureIDs scene_in_use) 2 (m_objectMaterials scene_in_use)
              scene_in_use_ok scene_in_use_no_granite)
    as [(sm' & Hrun & _ & _ & _ & _ & Hsame) _].
  exists sm'. split; [exact Hrun|].
  rewrite Hsame by discriminate. now store_lookup.
Defined.

(** ** C2 *)

(** C2. [SetTransformations] pushes, as the uniform "model", the matrix
    Translation · RotationZ · RotationY · RotationX · Scale of its
    arguments and nothing else: the matrix is a function of the arguments
    alone (no state enters it), it sends a point to the point scaled first,
    then turned about the fixed X, Y and Z axes by the angles given in
    degrees, then moved; and scale (1,1,1), rotations 0 and translation
    (0,0,0) give the identity matrix.  With a NULL shader manager nothing
    is pushed. *)
Theorem SetTransformations_model_matrix :
  forall (s : vec3) (rx ry rz : R) (t : vec3) (sh : ShaderManager)
         (arr : list TEXTURE_INFO) (n : Z) (mats : list OBJECT_MATERIAL),
    SetTransformations s rx ry rz t (mkScene (Some sh) arr n mats) =
      mkScene (Some (sh ++ [(g_ModelName,
                             UMat4 (TransformSpec.Compute s rx ry rz t))]))
              arr n mats /\
    SetTransformations s rx ry rz t (mkScene None arr n mats) =
      mkScene None arr n mats /\
    (forall p : vec3,
       mat4_mul_vec4 (modelView s rx ry rz t) (TransformSpec.homogeneous p) =
       TransformSpec.homogeneous
         (TransformSpec.move_point t
            (TransformSpec.turn_about_Z rz
               (TransformSpec.turn_about_Y ry
                  (TransformSpec.turn_about_X rx
                     (TransformSpec.scale_point s p)))))) /\
    shader_uniforms
      (SetTransformations (Vec3 1 1 1) 0 0 0 (Vec3 0 0 0)
         (mkScene (Some sh) arr n mats)) !! g_ModelName
      = Some (UMat4 mat4_identity).
Proof.
  intros s rx ry rz t sh arr n mats.
  unfold SetTransformations, set_shader, setMat4Value, set_uniform. simpl.
  repeat split.
  - now rewrite modelView_is_Compute.
  - intros p. rewrite modelView_is_Compute. apply Compute_on_point.
  - unfold shader_uniforms. simpl. rewrite uniforms_snoc.
    rewrite modelView_is_Compute, Compute_identity. apply lookup_insert_eq.
Qed.

(** ** C5 *)

(** C5. On a registry whose load count is within the array,
    [FindTextureID] and [FindTextureSlot] return -1 when no loaded entry
    carries the tag; otherwise they return the ID (converted to [int]) and
    the index of the first loaded entry that carries it, whatever later
    entries carry the same tag.  One of the two cases always applies, so
    both lookups return a value for every tag.  An ID up to [INT_MAX] is
    returned as it is. *)
Theorem FindTexture_first_match :
  forall (tag : string) (sm : SceneManager),
    registry_ok sm ->
    ((forall j e', loaded sm !! j = Some e' -> Tex.tag e' <> tag) ->
     FindTextureID tag sm = Done (-1)%Z /\
     FindTextureSlot tag sm = Done (-1)%Z) /\
    (forall i e,
       first_texture_at tag (loaded sm) i e ->
       FindTextureID tag sm = Done (returned_ID e) /\
       FindTextureSlot tag sm = Done (Z.of_nat i) /\
       ((0 <= Tex.ID e <= INT_MAX)%Z -> returned_ID e = Tex.ID e)) /\
    ((forall j e', loaded sm !! j = Some e' -> Tex.tag e' <> tag) \/
     (exists i e, first_texture_at tag (loaded sm) i e)).
Proof.
  intros tag sm Hok. split; [|split].
  - intros Hmiss. split.
    + now apply FindTextureID_miss.
    + now apply FindTextureSlot_miss.
  - intros i e Hhit. split; [|split].
    + now apply (FindTextureID_hit tag sm i e).
    + now apply (FindTextureSlot_hit tag sm i e).
    + intros H. apply int_wrap_small. unfold in_int, INT_MIN, INT_MAX in *. lia.
  - apply first_texture_dichotomy.
Qed.

Lemma FindTexture_first_match_witness :
  registry_ok scene_duplicate_tag /\
  FindTextureID "marble" scene_duplicate_tag = Done 7%Z /\
  FindTextureSlot "marble" scene_duplicate_tag = Done 0%Z /\
  FindTextureID "granite" scene_duplicate_tag = Done (-1)%Z /\
  FindTextureSlot "granite" scene_duplicate_tag = Done (-1)%Z.
Proof.
  assert (Hok : registry_ok scene_duplicate_tag).
  { split; [reflexivity | simpl; unfold MAX_TEXTURES; lia]. }
  split; [exact Hok|].
  destruct (FindTexture_first_match "marble" scene_duplicate_tag Hok)
    as (_ & Hhit & _).
  destruct (FindTexture_first_match "granite" scene_duplicate_tag Hok)
    as (Hmiss & _ & _).
  destruct (Hhit 0%nat (Tex.mk 7 "marble")) as (HID & Hslot & _).
  { repeat split; try reflexivity. intros j e' Hj. lia. }
  destruct Hmiss as (HID' & Hslot').
  { intros j e'. destruct j as [|[|[|j]]]; simpl; intros [= <-]; discriminate. }
  repeat split; assumption.
Defined.

(** ** C1 *)

(** C1. With a catalogue of at most [INT_MAX] entries, [FindMaterial]
    returns false and leaves the out-descriptor alone when the catalogue is
    empty; on a non-empty catalogue it returns true whether or not the tag
    is there; the diffuse colour, specular colour and shininess of the
    out-descriptor are those of the first entry that carries the tag when
    there is one, and the out-descriptor is the caller's otherwise.  One of
    the two cases always applies. *)
Theorem FindMaterial_result :
  forall (tag : string) (material : OBJECT_MATERIAL) (sm : SceneManager),
    (materials_size sm <= INT_MAX)%Z ->
    (m_objectMaterials sm = [] ->
     FindMaterial tag material sm = Done (false, material)) /\
    (m_objectMaterials sm <> [] ->
     exists out, FindMaterial tag material sm = Done (true, out)) /\
    (forall i e,
       first_material_at tag (m_objectMaterials sm) i e ->
       FindMaterial tag material sm = Done (true, copy_material e material)) /\
    (m_objectMaterials sm <> [] ->
     (forall j e', m_objectMaterials sm !! j = Some e' -> Mat.tag e' <> tag) ->
     FindMaterial tag material sm = Done (true, material)) /\
    ((forall j e', m_objectMaterials sm !! j = Some e' -> Mat.tag e' <> tag) \/
     (exists i e, first_material_at tag (m_objectMaterials sm) i e)).
Proof.
  intros tag material sm Hsize. split; [|split; [|split; [|split]]].
  - now apply FindMaterial_empty.
  - intros Hne.
    destruct (first_material_dichotomy tag (m_objectMaterials sm))
      as [Hmiss | (i & e & Hhit)].
    + exists material. now apply FindMaterial_miss.
    + exists (copy_material e material). now apply (FindMaterial_hit sm tag Hsize material i e).
  - intros i e. now apply FindMaterial_hit.
  - intros Hne Hmiss. now apply FindMaterial_miss.
  - apply first_material_dichotomy.
Qed.

Lemma FindMaterial_result_witness :
  FindMaterial "wood" zeroed_material scene_in_use
    = Done (true, copy_material woodMaterial zeroed_material) /\
  FindMaterial "granite" zeroed_material scene_in_use
    = Done (true, zeroed_material).
Proof.
  assert (Hsize : (materials_size scene_in_use <= INT_MAX)%Z).
  { unfold materials_size, INT_MAX. simpl. lia. }
  destruct (FindMaterial_result "wood" zeroed_material scene_in_use Hsize)
    as (_ & _ & Hhit & _).
  destruct (FindMaterial_result "granite" zeroed_material scene_in_use Hsize)
    as (_ & _ & _ & Hmiss & _).
  split.
  - apply (Hhit 1%nat woodMaterial). repeat split.
    intros j e' Hj. destruct j as [|j]; [|lia]. simpl. intros [= <-]. discriminate.
  - apply Hmiss; [discriminate | apply scene_in_use_no_granite_material].
Defined.

(** ** Loading textures *)

Section Loading.
Local Open Scope Z_scope.

Variable stbi_load : string -> option Image.

Lemma registry_slot (sm : SceneManager) :
  registry_ok sm -> m_loadedTextures sm < Z.of_nat MAX_TEXTURES ->
  exists k e, m_loadedTextures sm = Z.of_nat k /\ (k < MAX_TEXTURES)%nat /\
              m_textureIDs sm !! k = Some e.
Proof.
  intros [Hlen Hn] Hlt. exists (Z.to_nat (m_loadedTextures sm)).
  destruct (lookup_lt_is_Some_2 (m_textureIDs sm) (Z.to_nat (m_loadedTextures sm)))
    as [e He]; [lia|].
  exists e. repeat split; [lia | lia | exact He].
Qed.

(** Below the capacity a decodable image with 3 or 4 channels is
    registered in the next slot. *)
Lemma CreateGLTexture_registers (filename tag : string) (image : Image)
    (sm : SceneManager) (gl : GLState) :
  registry_ok sm -> m_loadedTextures sm < Z.of_nat MAX_TEXTURES ->
  stbi_load filename = Some image ->
  img_channels image = 3 \/ img_channels image = 4 ->
  exists sm' gl',
    CreateGLTexture stbi_load filename tag sm gl = Done (true, sm', gl') /\
    loaded sm' = loaded sm ++ [Tex.mk (gl_next_name gl) tag] /\
    m_loadedTextures sm' = m_loadedTextures sm + 1 /\
    registry_ok sm'.
Proof.
  intros Hok Hlt Hload Hch.
  destruct (registry_slot sm Hok Hlt) as (k & e & Hk & Hk16 & He).
  destruct Hok as [Hlen Hn].
  assert (Hkl : (k < length (m_textureIDs sm))%nat) by lia.
  unfold CreateGLTexture. rewrite Hload. cbv zeta.
  unfold glGenTextures.
  assert (Hup : exists c,
    (if img_channels image =? 3
     then Some (glTexImage2D_call GL_TEXTURE_2D GL_RGB8 (img_width image)
                  (img_height image) GL_RGB GL_UNSIGNED_BYTE)
     else if img_channels image =? 4
          then Some (glTexImage2D_call GL_TEXTURE_2D GL_RGBA8 (img_width image)
                       (img_height image) GL_RGBA GL_UNSIGNED_BYTE)
          else None) = Some c).
  { destruct Hch as [-> | ->]; simpl; eauto. }
  destruct Hup as [c ->].
  rewrite Hk, (array_get_lookup _ _ _ He). simpl.
  rewrite (array_set_inside _ _ _ Hkl). simpl.
  rewrite (array_get_lookup _ k (Tex.mk (gl_next_name gl) (Tex.tag e)))
    by now apply list_lookup_insert_eq.
  simpl. rewrite array_set_inside by now rewrite length_insert.
  simpl. rewrite list_insert_insert_eq, int_incr_slot by assumption.
  eexists _, _. split; [reflexivity|].
  unfold loaded, set_textures. simpl. rewrite Hk, !Nat2Z.id.
  split; [|split; [lia|]].
  - rewrite (take_S_r _ _ (Tex.mk (gl_next_name gl) tag))
      by now apply list_lookup_insert_eq.
    now rewrite take_insert_ge by lia.
  - split; simpl; [now rewrite length_insert | lia].
Qed.

(** At the capacity the same call writes past the end of the array. *)
Lemma CreateGLTexture_full (filename tag : string) (image : Image)
    (sm : SceneManager) (gl : GLState) :
  registry_ok sm -> m_loadedTextures sm = Z.of_nat MAX_TEXTURES ->
  stbi_load filename = Some image ->
  img_channels image = 3 \/ img_channels image = 4 ->
  CreateGLTexture stbi_load filename tag sm gl = Undefined OutOfBounds.
Proof.
  intros [Hlen Hn] Hfull Hload Hch.
  unfold CreateGLTexture. rewrite Hload. cbv zeta. unfold glGenTextures.
  rewrite array_get_beyond by lia.
  destruct Hch as [-> | ->]; reflexivity.
Qed.

End Loading.

(** ** Destroying textures *)

Lemma count_calls_app (p : GLCall -> bool) (l k : list GLCall) :
  count_calls p (l ++ k) = (count_calls p l + count_calls p k)%nat.
Proof. unfold count_calls. now rewrite filter_app, length_app. Qed.

Lemma count_delete_gen (ids : list Z) :
  count_calls is_delete (glGenTextures_call <$> ids) = 0%nat.
Proof. induction ids as [|i ids IH]; [reflexivity | exact IH]. Qed.

Lemma count_gen_gen (ids : list Z) :
  count_calls is_gen (glGenTextures_call <$> ids) = length ids.
Proof.
  induction ids as [|i ids IH]; [reflexivity|].
  unfold count_calls in *. rewrite fmap_cons, filter_cons_True by reflexivity.
  simpl. now rewrite IH.
Qed.

Lemma DestroyGLTextures_loop (n : Z) (k : nat) :
  forall (i : nat) (arr : list TEXTURE_INFO) (gl : GLState),
    Z.of_nat (i + k) = n -> (i + k <= length arr)%nat ->
    (length arr <= MAX_TEXTURES)%nat ->
    exists arr',
      while k (DestroyGLTextures_cond n) DestroyGLTextures_body
            (Z.of_nat i, arr, gl)
      = Done (n, arr',
              mkGL (gl_next_name gl + Z.of_nat k)
                   (gl_calls gl ++
                    (glGenTextures_call <$> seqZ (gl_next_name gl) (Z.of_nat k))))
      /\ length arr' = length arr
      /\ Tex.tag <$> arr' = Tex.tag <$> arr.
Proof.
  induction k as [|k IH]; intros i arr gl Hn Hlen Hcap.
  - exists arr. split; [|split; reflexivity].
    rewrite while_exit.
    + destruct gl as [next calls]. simpl.
      rewrite Z.add_0_r, app_nil_r. do 3 f_equal. lia.
    + unfold DestroyGLTextures_cond. simpl. apply Z.ltb_ge. lia.
  - destruct (lookup_lt_is_Some_2 arr i) as [e He]; [lia|].
    assert (Hc : DestroyGLTextures_cond n (Z.of_nat i, arr, gl) = true).
    { unfold DestroyGLTextures_cond. simpl. apply Z.ltb_lt. lia. }
    assert (Hb : DestroyGLTextures_body (Z.of_nat i, arr, gl) =
                 Done (Z.of_nat (S i),
                       <[i := Tex.mk (gl_next_name gl) (Tex.tag e)]> arr,
                       (glGenTextures gl).2)).
    { unfold DestroyGLTextures_body, glGenTextures.
      rewrite (array_get_lookup _ _ _ He). simpl.
      rewrite array_set_inside by lia. simpl.
      rewrite int_incr_slot by lia. reflexivity. }
    rewrite (while_iter _ _ _ _ _ Hc Hb).
    destruct (IH (S i) (<[i := Tex.mk (gl_next_name gl) (Tex.tag e)]> arr)
                (glGenTextures gl).2) as (arr' & Hrun & Hlen' & Htags);
      [lia | rewrite length_insert; lia | rewrite length_insert; lia |].
    exists arr'. rewrite Hrun. split; [|split].
    + unfold glGenTextures. simpl. do 3 f_equal; [lia|].
      rewrite <- app_assoc. f_equal.
      rewrite (seqZ_cons _ (Z.of_nat (S k))) by lia. simpl.
      do 3 f_equal; lia.
    + now rewrite Hlen', length_insert.
    + rewrite Htags, list_fmap_insert. simpl.
      apply list_insert_id. now rewrite list_lookup_fmap, He.
Qed.

(** ** Binding textures *)

Lemma BindGLTextures_loop (sm : SceneManager) (k : nat) :
  forall (i : nat) (gl : GLState),
    Z.of_nat (i + k) = m_loadedTextures sm ->
    (i + k <= length (m_textureIDs sm))%nat ->
    (length (m_textureIDs sm) <= MAX_TEXTURES)%nat ->
    while k (BindGLTextures_cond sm) (BindGLTextures_body sm) (Z.of_nat i, gl)
    = Done (m_loadedTextures sm,
            mkGL (gl_next_name gl)
                 (gl_calls gl ++
                  bind_calls (Z.of_nat i) (take k (drop i (m_textureIDs sm))))).
Proof.
  induction k as [|k IH]; intros i gl Hn Hlen Hcap.
  - rewrite while_exit.
    + destruct gl as [next calls]. simpl. rewrite app_nil_r. do 2 f_equal. lia.
    + unfold BindGLTextures_cond. simpl. apply Z.ltb_ge. lia.
  - destruct (lookup_lt_is_Some_2 (m_textureIDs sm) i) as [e He]; [lia|].
    assert (Hc : BindGLTextures_cond sm (Z.of_nat i, gl) = true).
    { unfold BindGLTextures_cond. simpl. apply Z.ltb_lt. lia. }
    assert (Hb : BindGLTextures_body sm (Z.of_nat i, gl) =
                 Done (Z.of_nat (S i),
                       gl_call (glBindTexture_call GL_TEXTURE_2D (Tex.ID e))
                         (gl_call (glActiveTexture_call (Z.of_nat i)) gl))).
    { unfold BindGLTextures_body. rewrite (array_get_lookup _ _ _ He). simpl.
      rewrite int_incr_slot by lia. reflexivity. }
    rewrite (while_iter _ _ _ _ _ Hc Hb), IH by lia.
    rewrite (drop_S _ _ _ He). simpl. rewrite <- !app_assoc. simpl.
    now replace (Z.of_nat i + 1)%Z with (Z.of_nat (S i)) by lia.
Qed.

Lemma BindGLTextures_units (sm : SceneManager) (gl : GLState) :
  registry_ok sm ->
  BindGLTextures sm gl =
  Done (mkGL (gl_next_name gl) (gl_calls gl ++ bind_calls 0 (loaded sm))).
Proof.
  intros [Hlen Hn]. unfold BindGLTextures.
  change (0%Z, gl) with (Z.of_nat 0, gl).
  rewrite (BindGLTextures_loop sm (Z.to_nat (m_loadedTextures sm)) 0 gl)
    by (simpl; lia).
  reflexivity.
Qed.

(** ** C4 *)

(** C4, on the code.  For every registry within its capacity,
    [DestroyGLTextures] returns after issuing one [glGenTextures] call per
    live entry and no [glDeleteTextures] call at all: the allocation calls
    of the log grow by [m_loadedTextures], the deletion calls stay as they
    were, and the entries stay live under their tags. *)
Theorem DestroyGLTextures_allocates_instead :
  forall (sm : SceneManager) (gl : GLState),
    registry_ok sm ->
    exists sm' gl',
      DestroyGLTextures sm gl = Done (sm', gl') /\
      gl_calls gl' =
        gl_calls gl ++
        (glGenTextures_call <$> seqZ (gl_next_name gl) (m_loadedTextures sm)) /\
      count_calls is_delete (gl_calls gl') = count_calls is_delete (gl_calls gl) /\
      count_calls is_gen (gl_calls gl') =
        (count_calls is_gen (gl_calls gl) + Z.to_nat (m_loadedTextures sm))%nat /\
      m_loadedTextures sm' = m_loadedTextures sm /\
      Tex.tag <$> m_textureIDs sm' = Tex.tag <$> m_textureIDs sm.
Proof.
  intros sm gl [Hlen Hn]. unfold DestroyGLTextures.
  destruct (DestroyGLTextures_loop (m_loadedTextures sm)
              (Z.to_nat (m_loadedTextures sm)) 0 (m_textureIDs sm) gl)
    as (arr' & Hrun & Hlen' & Htags); [simpl; lia | simpl; lia | lia |].
  change (Z.of_nat 0) with 0%Z in Hrun. rewrite Hrun. simpl.
  rewrite Z2Nat.id by lia.
  eexists _, _. split; [reflexivity|]. simpl.
  split; [reflexivity|].
  rewrite !count_calls_app, count_delete_gen, count_gen_gen, length_seqZ.
  repeat split; try lia. exact Htags.
Qed.

Lemma DestroyGLTextures_allocates_instead_witness :
  exists sm gl,
    LoadSceneTextures every_file_rgb (SceneManager_new None) GL_new
      = Done (sm, gl) /\
    registry_ok sm /\
    exists sm' gl',
      DestroyGLTextures sm gl = Done (sm', gl') /\
      count_calls is_delete (gl_calls gl') = 0%nat /\
      count_calls is_gen (gl_calls gl') = 4%nat.
Proof.
  eexists _, _. split; [vm_compute; reflexivity|].
  assert (Hok : registry_ok
                  (mkScene None
                     ([Tex.mk 1 "marble"; Tex.mk 2 "wood"]
                        ++ replicate 14 (Tex.mk 0 "")) 2 [])).
  { split; [reflexivity | simpl; unfold MAX_TEXTURES; lia]. }
  split; [exact Hok|].
  match goal with
  | |- exists sm' gl', DestroyGLTextures ?s ?g = _ /\ _ =>
      destruct (DestroyGLTextures_allocates_instead s g Hok)
        as (sm' & gl' & Hrun & _ & Hdel & Hgen & _)
  end.
  exists sm', gl'. split; [exact Hrun|].
  rewrite Hdel, Hgen. split; vm_compute; reflexivity.
Defined.

(** ** C6 *)

(** C6, on the code.  While fewer than 16 textures are loaded, a load of a
    decodable image with 3 or 4 channels is registered in the next slot,
    so slot indices are dense and follow insertion order, and
    [BindGLTextures] binds entry i to unit i.  With 16 textures loaded the
    same call is not rejected: it stores to [m_textureIDs[16]], outside the
    array. *)
Theorem CreateGLTexture_capacity :
  forall (stbi_load : string -> option Image) (filename tag : string)
         (image : Image) (sm : SceneManager) (gl : GLState),
    registry_ok sm ->
    stbi_load filename = Some image ->
    (img_channels image = 3 \/ img_channels image = 4)%Z ->
    ((m_loadedTextures sm < Z.of_nat MAX_TEXTURES)%Z ->
     exists sm' gl',
       CreateGLTexture stbi_load filename tag sm gl = Done (true, sm', gl') /\
       loaded sm' = loaded sm ++ [Tex.mk (gl_next_name gl) tag] /\
       m_loadedTextures sm' = (m_loadedTextures sm + 1)%Z /\
       registry_ok sm' /\
       BindGLTextures sm' gl' =
         Done (mkGL (gl_next_name gl')
                    (gl_calls gl' ++ bind_calls 0 (loaded sm')))) /\
    (m_loadedTextures sm = Z.of_nat MAX_TEXTURES ->
     CreateGLTexture stbi_load filename tag sm gl = Undefined OutOfBounds).
Proof.
  intros stbi_load filename tag image sm gl Hok Hload Hch. split.
  - intros Hlt.
    destruct (CreateGLTexture_registers stbi_load filename tag image sm gl
                Hok Hlt Hload Hch) as (sm' & gl' & Hrun & Hloaded & Hn & Hok').
    exists sm', gl'. repeat split; try assumption; try apply Hok'.
    now apply BindGLTextures_units.
  - intros Hfull. now apply (CreateGLTexture_full stbi_load filename tag image).
Qed.

Lemma CreateGLTexture_capacity_witness :
  exists sm gl,
    load_all every_file_rgb sixteen_files (SceneManager_new None) GL_new
      = Done (replicate 16 true, sm, gl) /\
    registry_ok sm /\
    m_loadedTextures sm = 16%Z /\
    Tex.tag <$> loaded sm = sixteen_files.*2 /\
    CreateGLTexture every_file_rgb seventeenth_file.1 seventeenth_file.2 sm gl
      = Undefined OutOfBounds.
Proof.
  eexists _, _. split; [vm_compute; reflexivity|].
  match goal with
  | |- registry_ok ?s /\ _ =>
      assert (Hok : registry_ok s)
        by (split; [reflexivity | simpl; unfold MAX_TEXTURES; lia])
  end.
  split; [exact Hok|]. split; [reflexivity|]. split; [reflexivity|].
  refine (proj2 (CreateGLTexture_capacity every_file_rgb _ _ (mkImage 64 64 3)
                   _ _ Hok eq_refl (or_introl eq_refl)) eq_refl).
Defined.

(** ** The camera under mouse moves *)

Section CameraProofs.
Local Open Scope R_scope.

Lemma clamp_pitch_inside (p : R) : -89 <= p <= 89 -> clamp_pitch p = p.
Proof.
  intros H. unfold clamp_pitch.
  destruct (Rlt_dec 89 p); [lra|]. destruct (Rlt_dec p (-89)); [lra | reflexivity].
Qed.

Lemma ProcessMouseMovement_Pitch (dx dy : R) (c : Camera) :
  Pitch (ProcessMouseMovement dx dy c) =
  clamp_pitch (Pitch c + dy * MouseSensitivity c).
Proof. reflexivity. Qed.

Lemma ProcessMouseMovement_Yaw (dx dy : R) (c : Camera) :
  Yaw (ProcessMouseMovement dx dy c) = Yaw c + dx * MouseSensitivity c.
Proof. reflexivity. Qed.

(** The callback, with the offsets it hands to the camera spelled out. *)
Lemma Mouse_Position_Callback_eq (x y : R) (vm : ViewManager) :
  Mouse_Position_Callback x y vm =
  mkView
    (ProcessMouseMovement (if gFirstMouse vm then x - x else x - gLastX vm)
                          (if gFirstMouse vm then y - y else gLastY vm - y)
                          (g_pCamera vm))
    x y false (gDeltaTime vm) (gLastFrame vm) (bOrthographicProjection vm)
    (windowShouldClose vm).
Proof.
  unfold Mouse_Position_Callback. destruct (gFirstMouse vm) eqn:E; reflexivity.
Qed.

(** Yaw -90 with level pitch looks along -Z, the [Front] the constructor
    of the view manager sets. *)
Lemma view_direction_level : view_direction (-90) 0 = Vec3 0 0 (-1).
Proof.
  unfold view_direction, radians.
  replace (-90 * (PI / 180)) with (- (PI / 2)) by field.
  replace (0 * (PI / 180)) with 0 by ring.
  rewrite cos_neg, sin_neg, cos_PI2, sin_PI2, cos_0, sin_0.
  unfold normalize, dot, vec3_scale. cbn [x3 y3 z3].
  match goal with
  | |- context [sqrt ?e] => replace e with 1 by ring
  end.
  rewrite sqrt_1. apply Vec3_eq; field.
Qed.

End CameraProofs.

Section MouseEvents.
Local Open Scope R_scope.

(** ** C8 *)

(** C8.  Every event records its position in [gLastX], [gLastY] and leaves
    [gFirstMouse] false.  With [gFirstMouse] set, the camera receives the
    offsets (0, 0), and its yaw and pitch (a pitch within the clamp range)
    stay as they were.  Otherwise it receives (x - lastX, lastY - y): the
    yaw grows by sensitivity * (x - lastX), and the pitch by
    sensitivity * (lastY - y), cut off at the clamp bounds. *)
Theorem Mouse_Position_Callback_offsets :
  forall (x y : R) (vm : ViewManager),
    -89 <= Pitch (g_pCamera vm) <= 89 ->
    let vm' := Mouse_Position_Callback x y vm in
    let c := g_pCamera vm in
    let c' := g_pCamera vm' in
    gLastX vm' = x /\ gLastY vm' = y /\ gFirstMouse vm' = false /\
    Front c' = view_direction (Yaw c') (Pitch c') /\
    (if gFirstMouse vm
     then c' = ProcessMouseMovement 0 0 c /\
          Yaw c' = Yaw c /\ Pitch c' = Pitch c /\
          (Front c = view_direction (Yaw c) (Pitch c) -> Front c' = Front c)
     else c' = ProcessMouseMovement (x - gLastX vm) (gLastY vm - y) c /\
          Yaw c' = Yaw c + MouseSensitivity c * (x - gLastX vm) /\
          Pitch c' =
            clamp_pitch (Pitch c + MouseSensitivity c * (gLastY vm - y)) /\
          (-89 <= Pitch c + MouseSensitivity c * (gLastY vm - y) <= 89 ->
           Pitch c' = Pitch c + MouseSensitivity c * (gLastY vm - y))).
Proof.
  intros x y vm Hp vm' c c'. subst vm' c c'.
  rewrite Mouse_Position_Callback_eq. cbn [gLastX gLastY gFirstMouse g_pCamera].
  split; [reflexivity|]. split; [reflexivity|]. split; [reflexivity|].
  split; [reflexivity|].
  destruct (gFirstMouse vm).
  - replace (x - x) with 0 by ring. replace (y - y) with 0 by ring.
    split; [reflexivity|].
    assert (HY : Yaw (ProcessMouseMovement 0 0 (g_pCamera vm))
                 = Yaw (g_pCamera vm))
      by (rewrite ProcessMouseMovement_Yaw; ring).
    assert (HP : Pitch (ProcessMouseMovement 0 0 (g_pCamera vm))
                 = Pitch (g_pCamera vm)).
    { rewrite ProcessMouseMovement_Pitch, clamp_pitch_inside; [ring|].
      replace (Pitch (g_pCamera vm) + 0 * MouseSensitivity (g_pCamera vm))
        with (Pitch (g_pCamera vm)) by ring.
      exact Hp. }
    split; [exact HY|]. split; [exact HP|].
    intros HF. rewrite HF.
    change (view_direction (Yaw (ProcessMouseMovement 0 0 (g_pCamera vm)))
                           (Pitch (ProcessMouseMovement 0 0 (g_pCamera vm)))
            = view_direction (Yaw (g_pCamera vm)) (Pitch (g_pCamera vm))).
    now rewrite HY, HP.
  - split; [reflexivity|].
    rewrite ProcessMouseMovement_Yaw, ProcessMouseMovement_Pitch.
    split; [ring|].
    replace ((gLastY vm - y) * MouseSensitivity (g_pCamera vm))
      with (MouseSensitivity (g_pCamera vm) * (gLastY vm - y)) by ring.
    split; [reflexivity|]. intros Hin. now apply clamp_pitch_inside.
Qed.

Lemma Mouse_Position_Callback_offsets_witness :
  gLastX (Mouse_Position_Callback 3 4 view_start) = 3 /\
  gLastY (Mouse_Position_Callback 3 4 view_start) = 4 /\
  Yaw (g_pCamera (Mouse_Position_Callback 3 4 view_start)) = -90 /\
  Pitch (g_pCamera (Mouse_Position_Callback 3 4 view_start)) = 0 /\
  Front (g_pCamera (Mouse_Position_Callback 3 4 view_start)) = Vec3 0 0 (-1).
Proof.
  assert (Hp : -89 <= Pitch (g_pCamera view_start) <= 89).
  { change (Pitch (g_pCamera view_start)) with 0. lra. }
  destruct (Mouse_Position_Callback_offsets 3 4 view_start Hp)
    as (HX & HY & _ & _ & Hcam).
  change (gFirstMouse view_start) with true in Hcam. cbv iota in Hcam.
  destruct Hcam as (_ & Hyaw & Hpitch & Hfront).
  split; [exact HX|]. split; [exact HY|]. split; [exact Hyaw|].
  split; [exact Hpitch|].
  rewrite Hfront; [reflexivity|]. symmetry. exact view_direction_level.
Defined.

End MouseEvents.

(** ** C9 *)

Lemma when_pressed_projection (keys : KeyState) (k : Key)
    (action : ViewManager -> ViewManager) (vm : ViewManager) :
  (forall v, bOrthographicProjection (action v) = bOrthographicProjection v) ->
  bOrthographicProjection (when_pressed keys k action vm)
  = bOrthographicProjection vm.
Proof. intros H. unfold when_pressed. destruct (keys k); [apply H | reflexivity]. Qed.

Lemma ProcessKeyboardEvents_mode (keys : KeyState) (vm : ViewManager) :
  bOrthographicProjection (ProcessKeyboardEvents keys vm) =
  if keys GLFW_KEY_O then true
  else if keys GLFW_KEY_P then false
  else bOrthographicProjection vm.
Proof.
  unfold ProcessKeyboardEvents. cbv zeta.
  unfold when_pressed at 1 2.
  destruct (keys GLFW_KEY_O); [reflexivity|].
  destruct (keys GLFW_KEY_P); [reflexivity|].
  now rewrite !when_pressed_projection by reflexivity.
Qed.

(** C9.  After a keyboard poll the projection mode is Orthographic when O
    is pressed (whether or not P is), Perspective when P alone of the two
    is pressed, and what it was when neither is; so polls with P, then O,
    then P pressed leave Perspective, Orthographic, Perspective, from
    either mode, and a poll with both pressed leaves Orthographic. *)
Theorem ProcessKeyboardEvents_projection_mode :
  forall (keys : KeyState) (vm : ViewManager),
    bOrthographicProjection (ProcessKeyboardEvents keys vm) =
      (if keys GLFW_KEY_O then true
       else if keys GLFW_KEY_P then false
       else bOrthographicProjection vm) /\
    bOrthographicProjection
      (keyboard_polls [holding [GLFW_KEY_P]] vm) = false /\
    bOrthographicProjection
      (keyboard_polls [holding [GLFW_KEY_P]; holding [GLFW_KEY_O]] vm) = true /\
    bOrthographicProjection
      (keyboard_polls [holding [GLFW_KEY_P]; holding [GLFW_KEY_O];
                       holding [GLFW_KEY_P]] vm) = false /\
    bOrthographicProjection
      (keyboard_polls [holding [GLFW_KEY_P; GLFW_KEY_O]] vm) = true /\
    bOrthographicProjection (keyboard_polls [holding []] vm)
      = bOrthographicProjection vm.
Proof.
  intros keys vm. split; [apply ProcessKeyboardEvents_mode|].
  unfold keyboard_polls. cbn [foldl].
  rewrite !ProcessKeyboardEvents_mode.
  repeat split; reflexivity.
Qed.

(** * Further properties of the scene manager *)

(** ** Loads that fail *)

Section FailedLoads.
Local Open Scope Z_scope.

Variable stbi_load : string -> option Image.

(** The calls [CreateGLTexture] has made when it reaches the test of the
    channel count. *)
Lemma CreateGLTexture_rejects (filename tag : string) (image : Image)
    (sm : SceneManager) (gl : GLState) :
  stbi_load filename = Some image ->
  img_channels image <> 3 -> img_channels image <> 4 ->
  CreateGLTexture stbi_load filename tag sm gl =
  Done (false, sm,
        mkGL (gl_next_name gl + 1)
             (gl_calls gl ++
              [glGenTextures_call (gl_next_name gl);
               glBindTexture_call GL_TEXTURE_2D (gl_next_name gl);
               glTexParameteri_call GL_TEXTURE_2D GL_TEXTURE_WRAP_S GL_REPEAT;
               glTexParameteri_call GL_TEXTURE_2D GL_TEXTURE_WRAP_T GL_REPEAT;
               glTexParameteri_call GL_TEXTURE_2D GL_TEXTURE_MIN_FILTER GL_LINEAR;
               glTexParameteri_call GL_TEXTURE_2D GL_TEXTURE_MAG_FILTER GL_LINEAR])).
Proof.
  intros Hload H3 H4. unfold CreateGLTexture. rewrite Hload. cbv zeta.
  unfold glGenTextures.
  destruct (Z.eqb_spec (img_channels image) 3) as [|_]; [contradiction|].
  destruct (Z.eqb_spec (img_channels image) 4) as [|_]; [contradiction|].
  unfold gl_call. simpl. now rewrite <- !app_assoc.
Qed.

(** X1.  An image whose channel count is neither 3 nor 4 is rejected
    ([false]) with the scene manager untouched, whatever the load count,
    also at full capacity; but the texture name generated for it is neither
    deleted nor unbound: the GL log grows by exactly six calls, one
    [glGenTextures], one [glBindTexture] of the generated name and the four
    [glTexParameteri] calls (wrap S, wrap T, min filter, mag filter), and
    ends there, with no [glDeleteTextures] and, after the bind of the
    generated name, no [glBindTexture] of 0. *)
Theorem CreateGLTexture_unsupported_channels :
  forall (filename tag : string) (image : Image) (sm : SceneManager)
         (gl : GLState),
    stbi_load filename = Some image ->
    img_channels image <> 3 -> img_channels image <> 4 ->
    exists gl',
      CreateGLTexture stbi_load filename tag sm gl = Done (false, sm, gl') /\
      gl_next_name gl' = gl_next_name gl + 1 /\
      gl_calls gl' =
        gl_calls gl ++
        [glGenTextures_call (gl_next_name gl);
         glBindTexture_call GL_TEXTURE_2D (gl_next_name gl);
         glTexParameteri_call GL_TEXTURE_2D GL_TEXTURE_WRAP_S GL_REPEAT;
         glTexParameteri_call GL_TEXTURE_2D GL_TEXTURE_WRAP_T GL_REPEAT;
         glTexParameteri_call GL_TEXTURE_2D GL_TEXTURE_MIN_FILTER GL_LINEAR;
         glTexParameteri_call GL_TEXTURE_2D GL_TEXTURE_MAG_FILTER GL_LINEAR] /\
      count_calls is_gen (gl_calls gl') = S (count_calls is_gen (gl_calls gl)) /\
      count_calls is_delete (gl_calls gl') = count_calls is_delete (gl_calls gl) /\
      glBindTexture_call GL_TEXTURE_2D 0
        ∉ drop (length (gl_calls gl) + 2) (gl_calls gl').
Proof.
  intros filename tag image sm gl Hload H3 H4.
  eexists. split; [now apply (CreateGLTexture_rejects filename tag image)|].
  cbn [gl_next_name gl_calls].
  split; [reflexivity|]. split; [reflexivity|]. rewrite !count_calls_app.
  split; [unfold count_calls; simpl; lia|].
  split; [unfold count_calls; simpl; lia|].
  rewrite drop_app_add. cbn [drop].
  intros Hin. repeat (apply elem_of_cons in Hin as [Hin|Hin]; [discriminate|]).
  now apply elem_of_nil in Hin.
Qed.

End FailedLoads.

Lemma CreateGLTexture_unsupported_channels_witness :
  exists gl',
    CreateGLTexture (fun _ => Some (mkImage 8 8 1)) "textures/grey.png" "grey"
      scene_in_use GL_new = Done (false, scene_in_use, gl') /\
    gl_next_name gl' = 2%Z.
Proof.
  destruct (CreateGLTexture_unsupported_channels
              (fun _ => Some (mkImage 8 8 1)) "textures/grey.png" "grey"
              (mkImage 8 8 1) scene_in_use GL_new eq_refl)
    as (gl' & Hrun & Hnext & _); [discriminate | discriminate |].
  exists gl'. split; [exact Hrun | exact Hnext].
Defined.

Section LoadResults.
Local Open Scope Z_scope.

Variable stbi_load : string -> option Image.

(** X2.  Below the capacity [CreateGLTexture] always returns, and returns
    true exactly when the file decodes to an image with 3 or 4 channels;
    the load count grows by one on true and the scene manager is untouched
    on false. *)
Theorem CreateGLTexture_result :
  forall (filename tag : string) (sm : SceneManager) (gl : GLState),
    registry_ok sm -> m_loadedTextures sm < Z.of_nat MAX_TEXTURES ->
    exists b sm' gl',
      CreateGLTexture stbi_load filename tag sm gl = Done (b, sm', gl') /\
      (b = true <->
       exists image, stbi_load filename = Some image /\
                     (img_channels image = 3 \/ img_channels image = 4)) /\
      (b = false -> sm' = sm) /\
      m_loadedTextures sm' = m_loadedTextures sm + (if b then 1 else 0) /\
      registry_ok sm'.
Proof.
  intros filename tag sm gl Hok Hlt.
  destruct (stbi_load filename) as [image|] eqn:Hload.
  - destruct (Z.eq_dec (img_channels image) 3) as [H3|H3];
      [|destruct (Z.eq_dec (img_channels image) 4) as [H4|H4]].
    + destruct (CreateGLTexture_registers stbi_load filename tag image sm gl
                  Hok Hlt Hload (or_introl H3))
        as (sm' & gl' & Hrun & _ & Hn & Hok').
      exists true, sm', gl'. split; [exact Hrun|].
      split; [split; [eauto | reflexivity]|].
      split; [discriminate|]. split; assumption.
    + destruct (CreateGLTexture_registers stbi_load filename tag image sm gl
                  Hok Hlt Hload (or_intror H4))
        as (sm' & gl' & Hrun & _ & Hn & Hok').
      exists true, sm', gl'. split; [exact Hrun|].
      split; [split; [eauto | reflexivity]|].
      split; [discriminate|]. split; assumption.
    + eexists false, sm, _.
      split; [now apply (CreateGLTexture_rejects stbi_load filename tag image)|].
      split; [|split; [reflexivity | split; [lia | exact Hok]]].
      split; [discriminate|]. intros (image' & [= <-] & [H|H]); contradiction.
  - exists false, sm, gl. split.
    { unfold CreateGLTexture. now rewrite Hload. }
    split; [|split; [reflexivity | split; [lia | exact Hok]]].
    split; [discriminate|]. intros (image' & [=] & _).
Qed.

End LoadResults.

Lemma CreateGLTexture_result_witness :
  exists b sm' gl',
    CreateGLTexture (fun _ => None) "textures/missing.jpg" "missing"
      scene_in_use GL_new = Done (b, sm', gl') /\
    (b = false -> sm' = scene_in_use).
Proof.
  destruct (CreateGLTexture_result (fun _ => None) "textures/missing.jpg"
              "missing" scene_in_use GL_new scene_in_use_ok)
    as (b & sm' & gl' & Hrun & _ & Hsame & _).
  { simpl. unfold MAX_TEXTURES. lia. }
  exists b, sm', gl'. split; [exact Hrun | exact Hsame].
Defined.

(** ** Loading, then looking up *)

Lemma first_texture_at_app (tag : string) (l l' : list TEXTURE_INFO) (i : nat)
    (e : TEXTURE_INFO) :
  first_texture_at tag l i e -> first_texture_at tag (l ++ l') i e.
Proof.
  intros (Hi & Htag & Hfirst).
  assert (Hlt : (i < length l)%nat) by (eapply lookup_lt_Some; eassumption).
  split; [|split; [exact Htag|]].
  - now rewrite lookup_app_l.
  - intros j e' Hj He'. rewrite lookup_app_l in He' by lia.
    now apply (Hfirst j e').
Qed.

Lemma first_texture_at_new (tag : string) (l : list TEXTURE_INFO)
    (e : TEXTURE_INFO) :
  Tex.tag e = tag ->
  (forall j e', l !! j = Some e' -> Tex.tag e' <> tag) ->
  first_texture_at tag (l ++ [e]) (length l) e.
Proof.
  intros Htag Hmiss. split; [|split; [exact Htag|]].
  - now rewrite lookup_app_r, Nat.sub_diag by lia.
  - intros j e' Hj He'. rewrite lookup_app_l in He' by lia.
    now apply (Hmiss j e').
Qed.

Section LoadThenFind.
Local Open Scope Z_scope.

Variable stbi_load : string -> option Image.

Lemma CreateGLTexture_true_inv (filename tag : string) (sm sm' : SceneManager)
    (gl gl' : GLState) :
  registry_ok sm -> m_loadedTextures sm < Z.of_nat MAX_TEXTURES ->
  CreateGLTexture stbi_load filename tag sm gl = Done (true, sm', gl') ->
  loaded sm' = loaded sm ++ [Tex.mk (gl_next_name gl) tag] /\ registry_ok sm'.
Proof.
  intros Hok Hlt Hrun.
  destruct (stbi_load filename) as [image|] eqn:Hload.
  - destruct (Z.eq_dec (img_channels image) 3) as [H3|H3];
      [|destruct (Z.eq_dec (img_channels image) 4) as [H4|H4]].
    + destruct (CreateGLTexture_registers stbi_load filename tag image sm gl
                  Hok Hlt Hload (or_introl H3))
        as (sm1 & gl1 & Hrun1 & Hl & _ & Hok1).
      rewrite Hrun1 in Hrun. injection Hrun as <- <-. now split.
    + destruct (CreateGLTexture_registers stbi_load filename tag image sm gl
                  Hok Hlt Hload (or_intror H4))
        as (sm1 & gl1 & Hrun1 & Hl & _ & Hok1).
      rewrite Hrun1 in Hrun. injection Hrun as <- <-. now split.
    + rewrite (CreateGLTexture_rejects stbi_load filename tag image sm gl
                 Hload H3 H4) in Hrun.
      discriminate.
  - unfold CreateGLTexture in Hrun. rewrite Hload in Hrun. discriminate.
Qed.

(** X3.  Round trip.  After a successful load under a tag that no loaded
    entry carries, [FindTextureSlot] returns the load count from before
    the call, and [FindTextureID] the texture name that [glGenTextures]
    handed out (a name within the range of [int]). *)
Theorem CreateGLTexture_then_find :
  forall (filename tag : string) (sm sm' : SceneManager) (gl gl' : GLState),
    registry_ok sm -> m_loadedTextures sm < Z.of_nat MAX_TEXTURES ->
    (forall j e', loaded sm !! j = Some e' -> Tex.tag e' <> tag) ->
    0 <= gl_next_name gl <= INT_MAX ->
    CreateGLTexture stbi_load filename tag sm gl = Done (true, sm', gl') ->
    FindTextureSlot tag sm' = Done (m_loadedTextures sm) /\
    FindTextureID tag sm' = Done (gl_next_name gl).
Proof.
  intros filename tag sm sm' gl gl' Hok Hlt Hmiss Hname Hrun.
  destruct (CreateGLTexture_true_inv filename tag sm sm' gl gl' Hok Hlt Hrun)
    as [Hl Hok'].
  assert (Hat : first_texture_at tag (loaded sm') (length (loaded sm))
                  (Tex.mk (gl_next_name gl) tag)).
  { rewrite Hl. now apply first_texture_at_new. }
  rewrite (FindTextureSlot_hit tag sm' _ _ Hok' Hat).
  rewrite (FindTextureID_hit tag sm' _ _ Hok' Hat).
  rewrite (loaded_length sm Hok). destruct Hok as [_ Hn].
  rewrite Z2Nat.id by lia. split; [reflexivity|].
  unfold returned_ID. simpl. rewrite int_wrap_small; [reflexivity|].
  unfold in_int, INT_MIN, INT_MAX in *. lia.
Qed.

(** X4.  A successful load never changes what a lookup returns for a tag
    that was registered before it, the tag just loaded included (the
    earlier entry keeps being served), nor for any tag other than the one
    loaded. *)
Theorem CreateGLTexture_keeps_lookups :
  forall (filename tag tag' : string) (sm sm' : SceneManager)
         (gl gl' : GLState),
    registry_ok sm -> m_loadedTextures sm < Z.of_nat MAX_TEXTURES ->
    CreateGLTexture stbi_load filename tag sm gl = Done (true, sm', gl') ->
    tag' <> tag \/ (exists i e, first_texture_at tag' (loaded sm) i e) ->
    FindTextureSlot tag' sm' = FindTextureSlot tag' sm /\
    FindTextureID tag' sm' = FindTextureID tag' sm.
Proof.
  intros filename tag tag' sm sm' gl gl' Hok Hlt Hrun Hcase.
  destruct (CreateGLTexture_true_inv filename tag sm sm' gl gl' Hok Hlt Hrun)
    as [Hl Hok'].
  destruct (first_texture_dichotomy tag' (loaded sm)) as [Hmiss | (i & e & Hat)].
  - destruct Hcase as [Hne | (i & e & Hi & Ht & _)];
      [|exfalso; exact (Hmiss i e Hi Ht)].
    assert (Hmiss' : forall j e', loaded sm' !! j = Some e' -> Tex.tag e' <> tag').
    { intros j e'. rewrite Hl. intros He'.
      apply lookup_app_Some in He' as [He' | [_ He']]; [now apply (Hmiss j)|].
      apply list_lookup_singleton_Some in He' as [_ <-]. simpl. congruence. }
    rewrite (FindTextureSlot_miss tag' sm' Hok' Hmiss').
    rewrite (FindTextureSlot_miss tag' sm Hok Hmiss).
    rewrite (FindTextureID_miss tag' sm' Hok' Hmiss').
    rewrite (FindTextureID_miss tag' sm Hok Hmiss).
    now split.
  - assert (Hat' : first_texture_at tag' (loaded sm') i e).
    { rewrite Hl. now apply first_texture_at_app. }
    rewrite (FindTextureSlot_hit tag' sm' i e Hok' Hat').
    rewrite (FindTextureSlot_hit tag' sm i e Hok Hat).
    rewrite (FindTextureID_hit tag' sm' i e Hok' Hat').
    rewrite (FindTextureID_hit tag' sm i e Hok Hat).
    now split.
Qed.

End LoadThenFind.

Lemma scene_in_use_load_granite :
  exists sm' gl',
    CreateGLTexture every_file_rgb "textures/granite.jpg" "granite"
      scene_in_use (mkGL 3 []) = Done (true, sm', gl').
Proof.
  destruct (CreateGLTexture_registers every_file_rgb "textures/granite.jpg"
              "granite" (mkImage 64 64 3) scene_in_use (mkGL 3 [])
              scene_in_use_ok) as (sm' & gl' & Hrun & _);
    [simpl; unfold MAX_TEXTURES; lia | reflexivity | now left |].
  now exists sm', gl'.
Qed.

Lemma CreateGLTexture_then_find_witness :
  exists sm' gl',
    CreateGLTexture every_file_rgb "textures/granite.jpg" "granite"
      scene_in_use (mkGL 3 []) = Done (true, sm', gl') /\
    FindTextureSlot "granite" sm' = Done 2%Z /\
    FindTextureID "granite" sm' = Done 3%Z.
Proof.
  destruct scene_in_use_load_granite as (sm' & gl' & Hrun).
  exists sm', gl'. split; [exact Hrun|].
  apply (CreateGLTexture_then_find every_file_rgb "textures/granite.jpg"
           "granite" scene_in_use sm' (mkGL 3 []) gl' scene_in_use_ok).
  - simpl. unfold MAX_TEXTURES. lia.
  - apply scene_in_use_no_granite.
  - simpl. unfold INT_MAX. lia.
  - exact Hrun.
Defined.

Lemma CreateGLTexture_keeps_lookups_witness :
  exists sm' gl',
    CreateGLTexture every_file_rgb "textures/granite.jpg" "granite"
      scene_in_use (mkGL 3 []) = Done (true, sm', gl') /\
    FindTextureSlot "wood" sm' = FindTextureSlot "wood" scene_in_use.
Proof.
  destruct scene_in_use_load_granite as (sm' & gl' & Hrun).
  exists sm', gl'. split; [exact Hrun|].
  apply (CreateGLTexture_keeps_lookups every_file_rgb "textures/granite.jpg"
           "granite" "wood" scene_in_use sm' (mkGL 3 []) gl' scene_in_use_ok).
  - simpl. unfold MAX_TEXTURES. lia.
  - exact Hrun.
  - left. discriminate.
Defined.

(** ** The registry after [DestroyGLTextures] *)

Lemma DestroyGLTextures_loop_ids (n : Z) (k : nat) :
  forall (i : nat) (arr : list TEXTURE_INFO) (gl : GLState),
    Z.of_nat (i + k) = n -> (i + k <= length arr)%nat ->
    (length arr <= MAX_TEXTURES)%nat ->
    exists arr' gl',
      while k (DestroyGLTextures_cond n) DestroyGLTextures_body
            (Z.of_nat i, arr, gl) = Done (n, arr', gl')
      /\ length arr' = length arr
      /\ Tex.tag <$> arr' = Tex.tag <$> arr
      /\ Tex.ID <$> take (i + k) arr' =
         (Tex.ID <$> take i arr) ++ seqZ (gl_next_name gl) (Z.of_nat k).
Proof.
  induction k as [|k IH]; intros i arr gl Hn Hlen Hcap.
  - exists arr, gl. rewrite while_exit.
    + rewrite Nat.add_0_r, app_nil_r.
      repeat split; try reflexivity. do 3 f_equal. lia.
    + unfold DestroyGLTextures_cond. simpl. apply Z.ltb_ge. lia.
  - destruct (lookup_lt_is_Some_2 arr i) as [e He]; [lia|].
    assert (Hc : DestroyGLTextures_cond n (Z.of_nat i, arr, gl) = true).
    { unfold DestroyGLTextures_cond. simpl. apply Z.ltb_lt. lia. }
    assert (Hb : DestroyGLTextures_body (Z.of_nat i, arr, gl) =
                 Done (Z.of_nat (S i),
                       <[i := Tex.mk (gl_next_name gl) (Tex.tag e)]> arr,
                       (glGenTextures gl).2)).
    { unfold DestroyGLTextures_body, glGenTextures.
      rewrite (array_get_lookup _ _ _ He). simpl.
      rewrite array_set_inside by lia. simpl.
      rewrite int_incr_slot by lia. reflexivity. }
    rewrite (while_iter _ _ _ _ _ Hc Hb).
    destruct (IH (S i) (<[i := Tex.mk (gl_next_name gl) (Tex.tag e)]> arr)
                (glGenTextures gl).2) as (arr' & gl' & Hrun & Hlen' & Htags & Hids);
      [lia | rewrite length_insert; lia | rewrite length_insert; lia |].
    exists arr', gl'. split; [exact Hrun|]. split; [|split].
    + now rewrite Hlen', length_insert.
    + rewrite Htags, list_fmap_insert. simpl.
      apply list_insert_id. now rewrite list_lookup_fmap, He.
    + replace (i + S k)%nat with (S i + k)%nat by lia. rewrite Hids.
      rewrite (take_S_r _ _ (Tex.mk (gl_next_name gl) (Tex.tag e)))
        by (apply list_lookup_insert_eq; lia).
      rewrite take_insert_ge by lia.
      rewrite fmap_app, <- app_assoc. f_equal.
      rewrite (seqZ_cons _ (Z.of_nat (S k))) by lia. simpl.
      do 2 f_equal; lia.
Qed.

(** The slot lookup reads the tags and the load count only. *)
Lemma FindTextureSlot_same_tags (tag : string) (sm sm' : SceneManager) :
  registry_ok sm -> registry_ok sm' ->
  m_loadedTextures sm' = m_loadedTextures sm ->
  Tex.tag <$> m_textureIDs sm' = Tex.tag <$> m_textureIDs sm ->
  FindTextureSlot tag sm' = FindTextureSlot tag sm.
Proof.
  intros Hok Hok' Hn Htags.
  assert (Hsame : forall a b : SceneManager,
            m_loadedTextures a = m_loadedTextures b ->
            Tex.tag <$> m_textureIDs a = Tex.tag <$> m_textureIDs b ->
            forall j e, loaded a !! j = Some e ->
            exists e0, loaded b !! j = Some e0 /\ Tex.tag e0 = Tex.tag e).
  { intros a b Hab Ht j e He. apply loaded_lookup in He as [He Hj].
    assert (H : (Tex.tag <$> m_textureIDs b) !! j = Some (Tex.tag e))
      by (rewrite <- Ht, list_lookup_fmap, He; reflexivity).
    rewrite list_lookup_fmap in H.
    destruct (m_textureIDs b !! j) as [e0|] eqn:E0; [|discriminate].
    exists e0. split; [|now injection H].
    apply loaded_lookup. split; [exact E0 | lia]. }
  destruct (first_texture_dichotomy tag (loaded sm)) as [Hmiss | (i & e & Hat)].
  - rewrite (FindTextureSlot_miss tag sm Hok Hmiss).
    apply FindTextureSlot_miss; [exact Hok'|].
    intros j e' He'.
    destruct (Hsame sm' sm Hn Htags j e' He') as (e0 & He0 & <-).
    now apply (Hmiss j e0).
  - rewrite (FindTextureSlot_hit tag sm i e Hok Hat).
    destruct Hat as (Hi & Ht & Hfirst).
    destruct (Hsame sm sm' (eq_sym Hn) (eq_sym Htags) i e Hi) as (e0 & He0 & Ht0).
    apply (FindTextureSlot_hit tag sm' i e0 Hok').
    split; [exact He0|]. split; [congruence|].
    intros j e' Hj He'.
    destruct (Hsame sm' sm Hn Htags j e' He') as (e1 & He1 & <-).
    now apply (Hfirst j e1).
Qed.

(** X5.  After [DestroyGLTextures] nothing has left the registry: the load
    count is the same, every tag resolves to the slot it had, and the IDs
    of the live entries are the newly generated names, in slot order, in
    place of the names that were stored. *)
Theorem DestroyGLTextures_keeps_registry :
  forall (sm sm' : SceneManager) (gl gl' : GLState),
    registry_ok sm ->
    DestroyGLTextures sm gl = Done (sm', gl') ->
    registry_ok sm' /\
    m_loadedTextures sm' = m_loadedTextures sm /\
    (forall tag, FindTextureSlot tag sm' = FindTextureSlot tag sm) /\
    Tex.ID <$> loaded sm' = seqZ (gl_next_name gl) (m_loadedTextures sm).
Proof.
  intros sm sm' gl gl' Hok Hrun. pose proof Hok as [Hlen Hn].
  unfold DestroyGLTextures in Hrun.
  destruct (DestroyGLTextures_loop_ids (m_loadedTextures sm)
              (Z.to_nat (m_loadedTextures sm)) 0 (m_textureIDs sm) gl)
    as (arr' & gl1 & Hloop & Hlen' & Htags & Hids);
    [simpl; lia | simpl; lia | lia |].
  change (Z.of_nat 0) with 0%Z in Hloop. rewrite Hloop in Hrun.
  simpl in Hrun. injection Hrun as <- <-.
  assert (Hok' : registry_ok (set_textures arr' (m_loadedTextures sm) sm)).
  { split; simpl; [congruence | exact Hn]. }
  split; [exact Hok'|]. split; [reflexivity|]. split.
  - intros tag. now apply FindTextureSlot_same_tags.
  - unfold loaded. simpl. simpl in Hids. rewrite Hids.
    now rewrite Z2Nat.id by lia.
Qed.

Lemma DestroyGLTextures_keeps_registry_witness :
  exists sm' gl',
    DestroyGLTextures scene_in_use (mkGL 3 []) = Done (sm', gl') /\
    FindTextureSlot "wood" sm' = FindTextureSlot "wood" scene_in_use /\
    Tex.ID <$> loaded sm' = [3; 4]%Z.
Proof.
  destruct (DestroyGLTextures_loop_ids 2 2 0 (m_textureIDs scene_in_use)
              (mkGL 3 [])) as (arr' & gl' & Hloop & _);
    [reflexivity | simpl; lia | simpl; unfold MAX_TEXTURES; lia |].
  assert (Hrun : DestroyGLTextures scene_in_use (mkGL 3 []) =
                 Done (set_textures arr' 2 scene_in_use, gl')).
  { unfold DestroyGLTextures. change (Z.to_nat (m_loadedTextures scene_in_use))
      with 2%nat. change (m_loadedTextures scene_in_use) with 2%Z.
    change (0%Z, m_textureIDs scene_in_use, mkGL 3 [])
      with (Z.of_nat 0, m_textureIDs scene_in_use, mkGL 3 []).
    now rewrite Hloop. }
  destruct (DestroyGLTextures_keeps_registry scene_in_use _ _ _
              scene_in_use_ok Hrun) as (_ & _ & Hslots & Hids).
  eexists _, _. split; [exact Hrun|]. split; [apply Hslots | exact Hids].
Defined.

(** ** Selecting a texture or a material that is registered *)

Lemma bind_calls_lookup (entries : list TEXTURE_INFO) :
  forall (unit : Z) (i : nat) (e : TEXTURE_INFO),
    entries !! i = Some e ->
    bind_calls unit entries !! (2 * i)%nat
      = Some (glActiveTexture_call (unit + Z.of_nat i)) /\
    bind_calls unit entries !! S (2 * i)
      = Some (glBindTexture_call GL_TEXTURE_2D (Tex.ID e)).
Proof.
  induction entries as [|e0 entries IH]; intros unit i e He; [discriminate|].
  destruct i as [|i].
  - injection He as ->. simpl. rewrite Z.add_0_r. now split.
  - simpl in He. destruct (IH (unit + 1)%Z i e He) as [H1 H2].
    replace (2 * S i)%nat with (S (S (2 * i))) by lia. simpl.
    split; [|exact H2].
    replace (i + (i + 0))%nat with (2 * i)%nat by lia. rewrite H1.
    do 2 f_equal. lia.
Qed.

(** X6.  For a tag that a loaded texture carries, [SetShaderTexture] turns
    the use-texture flag on and sets the sampler to the slot of the first
    such entry; that slot is the texture unit on which [BindGLTextures]
    binds this entry's ID (calls 2i and 2i+1 of its run). *)
Theorem SetShaderTexture_selects_bound_unit :
  forall (tag : string) (sh : ShaderManager) (arr : list TEXTURE_INFO) (n : Z)
         (mats : list OBJECT_MATERIAL) (i : nat) (e : TEXTURE_INFO)
         (gl : GLState),
    registry_ok (mkScene (Some sh) arr n mats) ->
    first_texture_at tag (loaded (mkScene (Some sh) arr n mats)) i e ->
    SetShaderTexture tag (mkScene (Some sh) arr n mats) =
      Done (mkScene (Some (sh ++ [(g_UseTextureName, UInt 1);
                                  (g_TextureValueName, USampler2D (Z.of_nat i))]))
              arr n mats) /\
    exists binds,
      BindGLTextures (mkScene (Some sh) arr n mats) gl =
        Done (mkGL (gl_next_name gl) (gl_calls gl ++ binds)) /\
      binds !! (2 * i)%nat = Some (glActiveTexture_call (Z.of_nat i)) /\
      binds !! S (2 * i) = Some (glBindTexture_call GL_TEXTURE_2D (Tex.ID e)).
Proof.
  intros tag sh arr n mats i e gl Hok Hat. split.
  - apply SetShaderTexture_log. now apply (FindTextureSlot_hit tag _ i e).
  - exists (bind_calls 0 (loaded (mkScene (Some sh) arr n mats))).
    split; [now apply BindGLTextures_units|].
    destruct Hat as (Hi & _).
    apply (bind_calls_lookup _ 0%Z i e Hi).
Qed.

Lemma scene_in_use_wood :
  first_texture_at "wood" (loaded scene_in_use) 1 (Tex.mk 2 "wood").
Proof.
  repeat split. intros j e' Hj. destruct j as [|j]; [|lia].
  simpl. intros [= <-]. discriminate.
Qed.

Lemma SetShaderTexture_selects_bound_unit_witness :
  exists sm',
    SetShaderTexture "wood" scene_in_use = Done sm' /\
    shader_uniforms sm' !! g_TextureValueName = Some (USampler2D 1).
Proof.
  destruct (SetShaderTexture_selects_bound_unit "wood" shader_in_use
              (m_textureIDs scene_in_use) 2 (m_objectMaterials scene_in_use)
              1 (Tex.mk 2 "wood") GL_new scene_in_use_ok scene_in_use_wood)
    as [Hrun _].
  eexists. split; [exact Hrun|].
  cbv [shader_uniforms m_pShaderManager].
  rewrite uniforms_snoc2. apply lookup_insert_eq.
Defined.

(** X7.  For a tag that a catalogue entry carries (catalogue within the
    range of [int]), [SetShaderMaterial] pushes the diffuse colour, the
    specular colour and the shininess of the first such entry, whatever its
    uninitialised local held, and changes nothing else of the scene
    manager. *)
Theorem SetShaderMaterial_pushes_first_match :
  forall (tag : string) (uninitialised : OBJECT_MATERIAL) (sh : ShaderManager)
         (arr : list TEXTURE_INFO) (n : Z) (mats : list OBJECT_MATERIAL)
         (i : nat) (e : OBJECT_MATERIAL),
    (Z.of_nat (length mats) <= INT_MAX)%Z ->
    first_material_at tag mats i e ->
    SetShaderMaterial tag uninitialised (mkScene (Some sh) arr n mats) =
    Done (mkScene
            (Some (sh ++ [("material.diffuseColor", UVec3 (Mat.diffuseColor e));
                          ("material.specularColor", UVec3 (Mat.specularColor e));
                          ("material.shininess", UFloat (Mat.shininess e))]))
            arr n mats).
Proof.
  intros tag uninit sh arr n mats i e Hsize Hat.
  assert (Hne : mats <> []).
  { destruct Hat as (Hi & _). intros ->. discriminate. }
  apply (SetShaderMaterial_log tag uninit (copy_material e uninit)); [exact Hne|].
  now apply (FindMaterial_hit (mkScene (Some sh) arr n mats) tag Hsize uninit i e).
Qed.

Lemma SetShaderMaterial_pushes_first_match_witness :
  exists sm',
    SetShaderMaterial "stone" zeroed_material scene_in_use = Done sm' /\
    shader_uniforms sm' !! "material.shininess" = Some (UFloat 6.0).
Proof.
  assert (Hat : first_material_at "stone" (m_objectMaterials scene_in_use) 2
                  stoneMaterial).
  { repeat split. intros j e' Hj.
    destruct j as [|[|j]]; [| |lia]; simpl; intros [= <-]; discriminate. }
  assert (Hsize : (Z.of_nat (length (m_objectMaterials scene_in_use)) <= INT_MAX)%Z).
  { simpl. unfold INT_MAX. lia. }
  eexists. split.
  - exact (SetShaderMaterial_pushes_first_match "stone" zeroed_material
             shader_in_use (m_textureIDs scene_in_use) 2
             (m_objectMaterials scene_in_use) 2 stoneMaterial Hsize Hat).
  - cbv [shader_uniforms m_pShaderManager].
    change [("material.diffuseColor", UVec3 (Mat.diffuseColor stoneMaterial));
            ("material.specularColor", UVec3 (Mat.specularColor stoneMaterial));
            ("material.shininess", UFloat (Mat.shininess stoneMaterial))]
      with ([("material.diffuseColor", UVec3 (Mat.diffuseColor stoneMaterial));
             ("material.specularColor", UVec3 (Mat.specularColor stoneMaterial))]
              ++ [("material.shininess", UFloat (Mat.shininess stoneMaterial))]).
    rewrite app_assoc, uniforms_snoc. apply lookup_insert_eq.
Defined.

(** ** A NULL shader manager *)

(** X8.  With a NULL shader manager [SetTransformations],
    [SetShaderColor], [SetShaderTexture] and [SetTextureUVScale] do
    nothing, and so does [SetShaderMaterial] on an empty catalogue; but
    [SetupSceneLights], and [SetShaderMaterial] on a non-empty catalogue
    (within the range of [int]), call through the NULL pointer. *)
Theorem null_shader_manager :
  forall (arr : list TEXTURE_INFO) (n : Z) (mats : list OBJECT_MATERIAL),
    mats <> [] -> (Z.of_nat (length mats) <= INT_MAX)%Z ->
    (forall s rx ry rz t,
       SetTransformations s rx ry rz t (mkScene None arr n mats)
       = mkScene None arr n mats) /\
    (forall r g b a,
       SetShaderColor r g b a (mkScene None arr n mats)
       = mkScene None arr n mats) /\
    (forall tag,
       SetShaderTexture tag (mkScene None arr n mats)
       = Done (mkScene None arr n mats)) /\
    (forall u v,
       SetTextureUVScale u v (mkScene None arr n mats)
       = mkScene None arr n mats) /\
    (forall tag uninitialised,
       SetShaderMaterial tag uninitialised (mkScene None arr n [])
       = Done (mkScene None arr n [])) /\
    (forall tag uninitialised,
       SetShaderMaterial tag uninitialised (mkScene None arr n mats)
       = Undefined NullDereference) /\
    SetupSceneLights (mkScene None arr n mats) = Undefined NullDereference.
Proof.
  intros arr n mats Hne Hsize.
  repeat (split; [reflexivity|]). split; [|reflexivity].
  intros tag uninit. unfold SetShaderMaterial, materials_size.
  simpl m_objectMaterials.
  destruct (Z.gtb_spec (Z.of_nat (length mats)) 0) as [_|Hle].
  2:{ destruct mats; [congruence | simpl in Hle; lia]. }
  destruct (first_material_dichotomy tag mats) as [Hmiss | (i & e & Hat)].
  - now rewrite (FindMaterial_miss (mkScene None arr n mats) tag Hsize uninit
                   Hne Hmiss).
  - now rewrite (FindMaterial_hit (mkScene None arr n mats) tag Hsize uninit
                   i e Hat).
Qed.

Lemma null_shader_manager_witness :
  SetShaderMaterial "wood" zeroed_material
    (mkScene None [] 0 [woodMaterial]) = Undefined NullDereference.
Proof.
  refine (proj1 (proj2 (proj2 (proj2 (proj2 (proj2
            (null_shader_manager [] 0 [woodMaterial] _ _))))))
            "wood" zeroed_material).
  - discriminate.
  - simpl. unfold INT_MAX. lia.
Defined.

(** ** What the per-object setters leave alone *)

Lemma not_per_object (name : string) :
  name ∉ per_object_uniforms ->
  name <> g_ModelName /\ name <> g_ColorValueName /\
  name <> g_TextureValueName /\ name <> g_UseTextureName /\
  name <> "UVscale" /\ name <> "material.diffuseColor" /\
  name <> "material.specularColor" /\ name <> "material.shininess".
Proof.
  unfold per_object_uniforms. rewrite !not_elem_of_cons. tauto.
Qed.

Lemma SetShaderTexture_other_uniforms (tag : string) (sm sm' : SceneManager)
    (name : string) :
  name <> g_UseTextureName -> name <> g_TextureValueName ->
  SetShaderTexture tag sm = Done sm' ->
  shader_uniforms sm' !! name = shader_uniforms sm !! name.
Proof.
  intros H1 H2. unfold SetShaderTexture, shader_uniforms.
  destruct (m_pShaderManager sm) as [sh|] eqn:Hsh.
  - destruct (FindTextureSlot tag sm) as [slot|f]; simpl; [|discriminate].
    intros [= <-]. simpl. unfold setSampler2DValue, setIntValue.
    rewrite !uniforms_set. now rewrite !lookup_insert_ne by congruence.
  - intros [= <-]. now rewrite Hsh.
Qed.

(** X9.  The per-object setters write only their own uniforms: whatever
    else the shader holds (the lighting setup, the view and projection
    matrices) is the same after [SetTransformations], [SetShaderColor],
    [SetTextureUVScale], and after every [SetShaderTexture] and
    [SetShaderMaterial] call that returns. *)
Theorem setters_keep_other_uniforms :
  forall (name : string) (sm : SceneManager),
    name ∉ per_object_uniforms ->
    (forall s rx ry rz t,
       shader_uniforms (SetTransformations s rx ry rz t sm) !! name
       = shader_uniforms sm !! name) /\
    (forall r g b a,
       shader_uniforms (SetShaderColor r g b a sm) !! name
       = shader_uniforms sm !! name) /\
    (forall u v,
       shader_uniforms (SetTextureUVScale u v sm) !! name
       = shader_uniforms sm !! name) /\
    (forall tag sm',
       SetShaderTexture tag sm = Done sm' ->
       shader_uniforms sm' !! name = shader_uniforms sm !! name) /\
    (forall tag uninitialised sm',
       SetShaderMaterial tag uninitialised sm = Done sm' ->
       shader_uniforms sm' !! name = shader_uniforms sm !! name).
Proof.
  intros name sm Hname.
  destruct (not_per_object name Hname)
    as (H1 & H2 & H3 & H4 & H5 & H6 & H7 & H8).
  split; [|split; [|split; [|split]]].
  - intros. unfold SetTransformations, shader_uniforms.
    destruct (m_pShaderManager sm) as [sh|] eqn:Hsh; [|now rewrite Hsh].
    simpl. unfold setMat4Value. rewrite uniforms_set.
    now rewrite lookup_insert_ne by congruence.
  - intros. unfold SetShaderColor, shader_uniforms.
    destruct (m_pShaderManager sm) as [sh|] eqn:Hsh; [|now rewrite Hsh].
    simpl. unfold setVec4Value, setIntValue. rewrite !uniforms_set.
    now rewrite !lookup_insert_ne by congruence.
  - intros. unfold SetTextureUVScale, shader_uniforms.
    destruct (m_pShaderManager sm) as [sh|] eqn:Hsh; [|now rewrite Hsh].
    simpl. unfold setVec2Value. rewrite uniforms_set.
    now rewrite lookup_insert_ne by congruence.
  - intros tag sm'. now apply SetShaderTexture_other_uniforms.
  - intros tag uninit sm'. now apply SetShaderMaterial_other_uniforms.
Qed.

Lemma setters_keep_other_uniforms_witness :
  shader_uniforms (SetShaderColor 1 1 1 1 scene_in_use) !! "spotLight.position"
  = shader_uniforms scene_in_use !! "spotLight.position".
Proof.
  refine (proj1 (proj2 (setters_keep_other_uniforms "spotLight.position"
                          scene_in_use _)) 1%R 1%R 1%R 1%R).
  unfold per_object_uniforms. rewrite !not_elem_of_cons.
  repeat (split; [discriminate|]). apply not_elem_of_nil.
Defined.

(** ** Defining the materials *)

Lemma first_material_at_app (tag : string) (l l' : list OBJECT_MATERIAL)
    (i : nat) (e : OBJECT_MATERIAL) :
  first_material_at tag l i e -> first_material_at tag (l ++ l') i e.
Proof.
  intros (Hi & Htag & Hfirst).
  assert (Hlt : (i < length l)%nat) by (eapply lookup_lt_Some; eassumption).
  split; [|split; [exact Htag|]].
  - now rewrite lookup_app_l.
  - intros j e' Hj He'. rewrite lookup_app_l in He' by lia.
    now apply (Hfirst j e').
Qed.

Lemma DefineObjectMaterials_catalogue (sm : SceneManager) :
  m_objectMaterials (DefineObjectMaterials sm) =
  m_objectMaterials sm ++ [plasticMaterial; woodMaterial; stoneMaterial].
Proof. reflexivity. Qed.

(** X10.  [DefineObjectMaterials] only appends: an entry that served a
    tag before the call keeps serving it, and a second call, which appends
    the three materials again, changes the result of no lookup (catalogue
    within the range of [int]). *)
Theorem DefineObjectMaterials_lookups :
  forall (tag : string) (material : OBJECT_MATERIAL) (sm : SceneManager),
    (materials_size sm + 6 <= INT_MAX)%Z ->
    (forall i e,
       first_material_at tag (m_objectMaterials sm) i e ->
       FindMaterial tag material (DefineObjectMaterials sm)
       = Done (true, copy_material e material)) /\
    FindMaterial tag material (DefineObjectMaterials (DefineObjectMaterials sm))
    = FindMaterial tag material (DefineObjectMaterials sm).
Proof.
  intros tag material sm Hsize.
  set (sm1 := DefineObjectMaterials sm).
  set (sm2 := DefineObjectMaterials sm1).
  assert (H1 : m_objectMaterials sm1 =
               m_objectMaterials sm ++ [plasticMaterial; woodMaterial; stoneMaterial])
    by reflexivity.
  assert (H2 : m_objectMaterials sm2 =
               m_objectMaterials sm1 ++ [plasticMaterial; woodMaterial; stoneMaterial])
    by reflexivity.
  assert (Hs1 : (materials_size sm1 <= INT_MAX)%Z).
  { unfold materials_size in *. rewrite H1, length_app. simpl. lia. }
  assert (Hs2 : (materials_size sm2 <= INT_MAX)%Z).
  { unfold materials_size in *. rewrite H2, H1, !length_app. simpl. lia. }
  split.
  - intros i e Hat. apply (FindMaterial_hit sm1 tag Hs1 material i e).
    rewrite H1. now apply first_material_at_app.
  - destruct (first_material_dichotomy tag (m_objectMaterials sm1))
      as [Hmiss | (i & e & Hat)].
    + rewrite (FindMaterial_miss sm1 tag Hs1 material); [| |exact Hmiss].
      2:{ rewrite H1. now destruct (m_objectMaterials sm). }
      apply (FindMaterial_miss sm2 tag Hs2 material).
      { rewrite H2. now destruct (m_objectMaterials sm1). }
      intros j e'. rewrite H2. intros He'.
      apply lookup_app_Some in He' as [He' | [_ He']]; [now apply (Hmiss j)|].
      generalize dependent (j - length (m_objectMaterials sm1))%nat.
      intros k Hk.
      apply (Hmiss (length (m_objectMaterials sm) + k)%nat).
      rewrite H1, lookup_app_r by lia.
      now replace (length (m_objectMaterials sm) + k -
                   length (m_objectMaterials sm))%nat with k by lia.
    + rewrite (FindMaterial_hit sm1 tag Hs1 material i e Hat).
      apply (FindMaterial_hit sm2 tag Hs2 material i e).
      rewrite H2. now apply first_material_at_app.
Qed.

Lemma DefineObjectMaterials_lookups_witness :
  FindMaterial "wood" zeroed_material
    (DefineObjectMaterials (DefineObjectMaterials scene_in_use))
  = FindMaterial "wood" zeroed_material (DefineObjectMaterials scene_in_use).
Proof.
  refine (proj2 (DefineObjectMaterials_lookups "wood" zeroed_material
                   scene_in_use _)).
  unfold materials_size, INT_MAX. simpl. lia.
Defined.

(** ** The lighting setup *)

Lemma uniforms_app (sh ws : ShaderManager) :
  uniforms (sh ++ ws) = uniforms ws ∪ uniforms sh.
Proof.
  induction ws as [|[k v] ws IH] using rev_ind.
  - rewrite app_nil_r. unfold uniforms at 2. simpl.
    now rewrite (left_id_L ∅ (∪)).
  - rewrite app_assoc, !uniforms_snoc, IH. apply insert_union_l.
Qed.

Lemma SetupSceneLights_appends :
  exists ws : ShaderManager,
    forall (sh : ShaderManager) (arr : list TEXTURE_INFO) (n : Z)
           (mats : list OBJECT_MATERIAL),
      SetupSceneLights (mkScene (Some sh) arr n mats) =
      Done (mkScene (Some (sh ++ ws)) arr n mats).
Proof.
  eexists. intros sh arr n mats.
  cbv [SetupSceneLights m_pShaderManager set_shader m_textureIDs
       m_loadedTextures m_objectMaterials setBoolValue setVec3Value
       setFloatValue set_uniform].
  rewrite <- !app_assoc. reflexivity.
Qed.

Lemma SetupSceneLights_flags (sh : ShaderManager) (arr : list TEXTURE_INFO)
    (n : Z) (mats : list OBJECT_MATERIAL) (sm1 : SceneManager) :
  SetupSceneLights (mkScene (Some sh) arr n mats) = Done sm1 ->
  Forall (fun name => shader_uniforms sm1 !! name = Some (UBool true))
    [g_UseLightingName; "pointLights[0].bActive"; "pointLights[1].bActive";
     "directionalLight.bActive"; "spotLight.bActive"] /\
  Forall (fun name => shader_uniforms sm1 !! name = uniforms sh !! name)
    (per_object_uniforms ++ ["spotLight.position"; "spotLight.direction";
                             "view"; "projection"]).
Proof.
  intros H.
  cbv [SetupSceneLights m_pShaderManager set_shader m_textureIDs
       m_loadedTextures m_objectMaterials] in H.
  injection H as <-. cbv [shader_uniforms m_pShaderManager].
  unfold setBoolValue, setVec3Value, setFloatValue. rewrite !uniforms_set.
  split.
  - repeat constructor;
      repeat (rewrite lookup_insert_ne by discriminate);
      apply lookup_insert_eq.
  - repeat constructor;
      now repeat (rewrite lookup_insert_ne by discriminate).
Qed.

(** X11.  With a non-null shader manager [SetupSceneLights] returns,
    leaving the registry and the catalogue alone; afterwards the lighting
    flag and the active flags of the two point lights, the directional
    light and the spot light are true; none of the per-object uniforms, nor
    the spot light's position and direction, nor the view and projection
    matrices, is written; and running it again leaves the uniform store as
    it is. *)
Theorem SetupSceneLights_store :
  forall (sh : ShaderManager) (arr : list TEXTURE_INFO) (n : Z)
         (mats : list OBJECT_MATERIAL),
    exists sh1 sh2,
      SetupSceneLights (mkScene (Some sh) arr n mats)
        = Done (mkScene (Some sh1) arr n mats) /\
      Forall (fun name => uniforms sh1 !! name = Some (UBool true))
        [g_UseLightingName; "pointLights[0].bActive"; "pointLights[1].bActive";
         "directionalLight.bActive"; "spotLight.bActive"] /\
      Forall (fun name => uniforms sh1 !! name = uniforms sh !! name)
        (per_object_uniforms ++ ["spotLight.position"; "spotLight.direction";
                                 "view"; "projection"]) /\
      SetupSceneLights (mkScene (Some sh1) arr n mats)
        = Done (mkScene (Some sh2) arr n mats) /\
      uniforms sh2 = uniforms sh1.
Proof.
  intros sh arr n mats. destruct SetupSceneLights_appends as [ws Hws].
  exists (sh ++ ws), ((sh ++ ws) ++ ws).
  destruct (SetupSceneLights_flags sh arr n mats _ (Hws sh arr n mats))
    as [Hflags Hframe].
  split; [apply Hws|]. split; [exact Hflags|]. split; [exact Hframe|].
  split; [apply Hws|].
  rewrite !uniforms_app, (assoc_L (∪)). f_equal. apply (idemp_L (∪)).
Qed.

(** * Further properties of the transform *)

Section TransformGeometry.
Import TransformSpec.
Local Open Scope R_scope.

Ltac coords :=
  cbv [apply_model homogeneous move_point turn_about_X turn_about_Y
       turn_about_Z scale_point vec3_add vec3_sub vec3_scale norm2 dist2 dot
       x3 y3 z3 x4 y4 z4 w4].

Lemma apply_model_modelView (s : vec3) (rx ry rz : R) (t p : vec3) :
  apply_model (modelView s rx ry rz t) p =
  move_point t (turn_about_Z rz (turn_about_Y ry (turn_about_X rx (scale_point s p)))).
Proof.
  unfold apply_model. rewrite modelView_is_Compute, Compute_on_point.
  cbv [homogeneous x4 y4 z4].
  now destruct (move_point t _).
Qed.

Lemma sin_cos_square (a : R) : sin a * sin a + cos a * cos a = 1.
Proof. pose proof (sin2_cos2 a) as H. unfold Rsqr in H. exact H. Qed.

Lemma turn_about_X_sub (d : R) (a b : vec3) :
  vec3_sub (turn_about_X d a) (turn_about_X d b) = turn_about_X d (vec3_sub a b).
Proof. destruct a, b. coords. apply Vec3_eq; ring. Qed.

Lemma turn_about_Y_sub (d : R) (a b : vec3) :
  vec3_sub (turn_about_Y d a) (turn_about_Y d b) = turn_about_Y d (vec3_sub a b).
Proof. destruct a, b. coords. apply Vec3_eq; ring. Qed.

Lemma turn_about_Z_sub (d : R) (a b : vec3) :
  vec3_sub (turn_about_Z d a) (turn_about_Z d b) = turn_about_Z d (vec3_sub a b).
Proof. destruct a, b. coords. apply Vec3_eq; ring. Qed.

Lemma turn_about_X_norm2 (d : R) (v : vec3) : norm2 (turn_about_X d v) = norm2 v.
Proof.
  destruct v as [x y z]. coords. pose proof (sin_cos_square (deg d)) as H.
  set (c := cos (deg d)) in *. set (s := sin (deg d)) in *.
  replace (x * x + (c * y - s * z) * (c * y - s * z)
           + (s * y + c * z) * (s * y + c * z))
    with (x * x + (s * s + c * c) * (y * y + z * z)) by ring.
  rewrite H. ring.
Qed.

Lemma turn_about_Y_norm2 (d : R) (v : vec3) : norm2 (turn_about_Y d v) = norm2 v.
Proof.
  destruct v as [x y z]. coords. pose proof (sin_cos_square (deg d)) as H.
  set (c := cos (deg d)) in *. set (s := sin (deg d)) in *.
  replace ((c * x + s * z) * (c * x + s * z) + y * y
           + (c * z - s * x) * (c * z - s * x))
    with (y * y + (s * s + c * c) * (x * x + z * z)) by ring.
  rewrite H. ring.
Qed.

Lemma turn_about_Z_norm2 (d : R) (v : vec3) : norm2 (turn_about_Z d v) = norm2 v.
Proof.
  destruct v as [x y z]. coords. pose proof (sin_cos_square (deg d)) as H.
  set (c := cos (deg d)) in *. set (s := sin (deg d)) in *.
  replace ((c * x - s * y) * (c * x - s * y)
           + (s * x + c * y) * (s * x + c * y) + z * z)
    with (z * z + (s * s + c * c) * (x * x + y * y)) by ring.
  rewrite H. ring.
Qed.

(** X12.  Whatever the scale and the angles, the model matrix pushed by
    [SetTransformations] puts the origin of the mesh at [positionXYZ] and
    keeps the homogeneous coordinate of a point at 1; with all three angles
    0 it scales each coordinate by its factor and adds the position. *)
Theorem modelView_places_mesh :
  forall (s : vec3) (rx ry rz : R) (t p : vec3),
    apply_model (modelView s rx ry rz t) (Vec3 0 0 0) = t /\
    w4 (mat4_mul_vec4 (modelView s rx ry rz t) (homogeneous p)) = 1 /\
    apply_model (modelView s 0 0 0 t) p =
      Vec3 (x3 s * x3 p + x3 t) (y3 s * y3 p + y3 t) (z3 s * z3 p + z3 t).
Proof.
  intros s rx ry rz t p. split; [|split].
  - rewrite apply_model_modelView. destruct s, t. coords.
    apply Vec3_eq; ring.
  - rewrite modelView_is_Compute, Compute_on_point. reflexivity.
  - rewrite apply_model_modelView. destruct s, t, p. coords.
    unfold deg. replace (0 * PI / 180) with 0 by field.
    rewrite cos_0, sin_0. apply Vec3_eq; ring.
Qed.

(** X13.  With the same factor k on the three axes, the model matrix
    multiplies every distance between mesh points by k, whatever the angles
    and the position: squared distances are multiplied by k * k; with scale
    (1,1,1) the mesh is moved rigidly. *)
Theorem modelView_uniform_scale :
  forall (k rx ry rz : R) (t p q : vec3),
    dist2 (apply_model (modelView (Vec3 k k k) rx ry rz t) p)
          (apply_model (modelView (Vec3 k k k) rx ry rz t) q)
    = k * k * dist2 p q /\
    dist2 (apply_model (modelView (Vec3 1 1 1) rx ry rz t) p)
          (apply_model (modelView (Vec3 1 1 1) rx ry rz t) q)
    = dist2 p q.
Proof.
  assert (H : forall k rx ry rz t p q,
    dist2 (apply_model (modelView (Vec3 k k k) rx ry rz t) p)
          (apply_model (modelView (Vec3 k k k) rx ry rz t) q)
    = k * k * dist2 p q).
  { intros k rx ry rz t p q. rewrite !apply_model_modelView. unfold dist2.
    assert (Hmove : forall a b, vec3_sub (move_point t a) (move_point t b)
                                = vec3_sub a b).
    { intros [] []. destruct t. coords. apply Vec3_eq; ring. }
    rewrite Hmove, turn_about_Z_sub, turn_about_Z_norm2,
      turn_about_Y_sub, turn_about_Y_norm2,
      turn_about_X_sub, turn_about_X_norm2.
    destruct p, q. coords. ring. }
  intros k rx ry rz t p q. split; [apply H|].
  rewrite H. ring.
Qed.

End TransformGeometry.

(** * Further properties of the view manager *)

Section ViewManagerProperties.
Local Open Scope R_scope.

(** ** Keyboard polls *)

Lemma when_pressed_preserves {A : Type} (f : ViewManager -> A)
    (keys : KeyState) (k : Key) (action : ViewManager -> ViewManager)
    (vm : ViewManager) :
  (forall v, f (action v) = f v) -> f (when_pressed keys k action vm) = f vm.
Proof. intros H. unfold when_pressed. destruct (keys k); [apply H | reflexivity]. Qed.

(** A field that no key action assigns is the same after the poll. *)
Lemma ProcessKeyboardEvents_preserves {A : Type} (f : ViewManager -> A)
    (keys : KeyState) (vm : ViewManager) :
  (forall b v, f (set_should_close b v) = f v) ->
  (forall c v, f (set_camera c v) = f v) ->
  (forall b v, f (set_projection b v) = f v) ->
  f (ProcessKeyboardEvents keys vm) = f vm.
Proof.
  intros H1 H2 H3. unfold ProcessKeyboardEvents. cbv zeta.
  rewrite !when_pressed_preserves; try reflexivity; intros v;
    try apply H1; try apply H3; unfold camera_key; apply H2.
Qed.

Lemma ProcessKeyboardEvents_camera (keys : KeyState) (vm : ViewManager) :
  g_pCamera (ProcessKeyboardEvents keys vm) =
  foldl (fun c d => ProcessKeyboard d (gDeltaTime vm) c) (g_pCamera vm)
        (held_movements keys).
Proof.
  unfold ProcessKeyboardEvents. cbv zeta.
  rewrite (when_pressed_preserves g_pCamera keys GLFW_KEY_O) by reflexivity.
  rewrite (when_pressed_preserves g_pCamera keys GLFW_KEY_P) by reflexivity.
  unfold held_movements.
  rewrite !filter_cons, filter_nil. cbn [movement_key].
  unfold when_pressed, camera_key.
  destruct (keys GLFW_KEY_ESCAPE), (keys GLFW_KEY_W), (keys GLFW_KEY_S),
    (keys GLFW_KEY_A), (keys GLFW_KEY_D), (keys GLFW_KEY_Q), (keys GLFW_KEY_E);
    reflexivity.
Qed.

Lemma ProcessKeyboardEvents_close (keys : KeyState) (vm : ViewManager) :
  windowShouldClose (ProcessKeyboardEvents keys vm) =
  keys GLFW_KEY_ESCAPE || windowShouldClose vm.
Proof.
  unfold ProcessKeyboardEvents. cbv zeta.
  rewrite !when_pressed_preserves by reflexivity.
  unfold when_pressed. now destruct (keys GLFW_KEY_ESCAPE).
Qed.

(** X14.  In one keyboard poll every movement key that is held moves the
    camera, in the order W, S, A, D, Q, E and each with the [gDeltaTime] of
    the poll; the window is asked to close when Escape is held and a
    request made earlier is never withdrawn; the mouse reference point, the
    first-mouse flag and the frame timing are not touched; and a poll with
    no key held changes nothing. *)
Theorem ProcessKeyboardEvents_effects :
  forall (keys : KeyState) (vm : ViewManager),
    g_pCamera (ProcessKeyboardEvents keys vm) =
      foldl (fun c d => ProcessKeyboard d (gDeltaTime vm) c) (g_pCamera vm)
            (held_movements keys) /\
    windowShouldClose (ProcessKeyboardEvents keys vm) =
      keys GLFW_KEY_ESCAPE || windowShouldClose vm /\
    gLastX (ProcessKeyboardEvents keys vm) = gLastX vm /\
    gLastY (ProcessKeyboardEvents keys vm) = gLastY vm /\
    gFirstMouse (ProcessKeyboardEvents keys vm) = gFirstMouse vm /\
    gDeltaTime (ProcessKeyboardEvents keys vm) = gDeltaTime vm /\
    gLastFrame (ProcessKeyboardEvents keys vm) = gLastFrame vm /\
    ProcessKeyboardEvents (holding []) vm = vm.
Proof.
  intros keys vm.
  split; [apply ProcessKeyboardEvents_camera|].
  split; [apply ProcessKeyboardEvents_close|].
  repeat (split; [now apply ProcessKeyboardEvents_preserves|]).
  reflexivity.
Qed.

(** ** Runs of mouse moves *)

(** X15.  Over a run of mouse moves the camera receives (0, 0) for the
    event that finds the first-mouse flag set and, for every later event,
    the difference to the position of the event before it (x forwards, y
    reversed): the camera after the run is the camera handler folded over
    these offsets, and the offsets do not depend on the camera. *)
Theorem mouse_moves_offsets :
  forall (events : list (R * R)) (vm : ViewManager),
    g_pCamera (mouse_moves events vm) =
    foldl (fun c o => ProcessMouseMovement o.1 o.2 c) (g_pCamera vm)
          (mouse_offsets (gFirstMouse vm) (gLastX vm) (gLastY vm) events).
Proof.
  induction events as [|[x y] events IH]; intros vm; [reflexivity|].
  change (mouse_moves ((x, y) :: events) vm)
    with (mouse_moves events (Mouse_Position_Callback x y vm)).
  rewrite IH, Mouse_Position_Callback_eq.
  cbn [gFirstMouse gLastX gLastY g_pCamera mouse_offsets foldl fst snd].
  destruct (gFirstMouse vm); [|reflexivity].
  cbn [fst snd].
  replace (x - x) with 0 by ring. replace (y - y) with 0 by ring. reflexivity.
Qed.

(** ** Frames *)

Lemma PrepareSceneView_state (t : R) (keys : KeyState)
    (sh : option ShaderManager) (vm : ViewManager) :
  (PrepareSceneView t keys sh vm).1 =
  ProcessKeyboardEvents keys
    (mkView (g_pCamera vm) (gLastX vm) (gLastY vm) (gFirstMouse vm)
            (t - gLastFrame vm) t (bOrthographicProjection vm)
            (windowShouldClose vm)).
Proof. unfold PrepareSceneView. now destruct sh. Qed.

(** X16.  A frame with a non-null shader manager writes four uniforms and
    no other: the view matrix and the spot light's position and direction
    are those of the camera as the keys of this very frame left it; the
    projection is the fixed orthographic volume (10 to each side, depth 0.1
    to 100, whatever the zoom) when O is held in this frame, or when P is
    not and the mode was orthographic, and is otherwise the perspective of
    the camera's zoom at aspect 1000 / 800. *)
Theorem PrepareSceneView_uniforms :
  forall (t : R) (keys : KeyState) (sh : ShaderManager) (vm : ViewManager),
    exists sh',
      (PrepareSceneView t keys (Some sh) vm).2 = Some sh' /\
      let c := g_pCamera (PrepareSceneView t keys (Some sh) vm).1 in
      uniforms sh' !! g_ViewName = Some (UMat4 (GetViewMatrix c)) /\
      uniforms sh' !! "spotLight.position" = Some (UVec3 (Position c)) /\
      uniforms sh' !! "spotLight.direction" = Some (UVec3 (Front c)) /\
      uniforms sh' !! g_ProjectionName =
        Some (UMat4
                (if keys GLFW_KEY_O
                    || negb (keys GLFW_KEY_P) && bOrthographicProjection vm
                 then ortho (-10) 10 (-10) 10 0.1 100
                 else perspective (radians (Zoom c))
                        (IZR WINDOW_WIDTH / IZR WINDOW_HEIGHT) 0.1 100)) /\
      forall name,
        name ∉ [g_ViewName; g_ProjectionName; "spotLight.position";
                "spotLight.direction"] ->
        uniforms sh' !! name = uniforms sh !! name.
Proof.
  intros t keys sh vm. eexists. split; [reflexivity|].
  rewrite PrepareSceneView_state.
  set (vm0 := mkView _ _ _ _ _ _ _ _).
  unfold setVec3Value, setMat4Value. rewrite !uniforms_set.
  split; [|split; [|split; [|split]]].
  - rewrite !lookup_insert_ne by discriminate. apply lookup_insert_eq.
  - rewrite !lookup_insert_ne by discriminate. apply lookup_insert_eq.
  - apply lookup_insert_eq.
  - rewrite !lookup_insert_ne by discriminate. rewrite lookup_insert_eq.
    rewrite ProcessKeyboardEvents_mode.
    change (bOrthographicProjection vm0) with (bOrthographicProjection vm).
    assert (Hortho : ortho (- (10.0)) 10.0 (- (10.0)) 10.0 0.1 100.0
                     = ortho (-10) 10 (-10) 10 0.1 100) by (f_equal; lra).
    assert (Hpersp : forall fovy aspect,
              perspective fovy aspect 0.1 100.0 = perspective fovy aspect 0.1 100)
      by (intros; f_equal; lra).
    destruct (keys GLFW_KEY_O), (keys GLFW_KEY_P),
      (bOrthographicProjection vm); cbn [orb andb negb];
      now rewrite ?Hortho, ?Hpersp.
  - intros name Hname. rewrite !not_elem_of_cons in Hname.
    destruct Hname as (H1 & H2 & H3 & H4 & _).
    now rewrite !lookup_insert_ne by congruence.
Qed.

(** ** Runs of mouse moves and frames *)

Lemma view_step_NULL (e : ViewEvent) (vm : ViewManager)
    (sh : option ShaderManager) :
  view_step (vm, None) e = ((view_step (vm, sh) e).1, None).
Proof.
  destruct e as [x y | t keys]; [reflexivity|].
  unfold view_step. cbn [fst snd].
  rewrite (surjective_pairing (PrepareSceneView t keys None vm)).
  now rewrite !PrepareSceneView_state.
Qed.

Lemma view_run_fields (events : list ViewEvent) :
  forall (s : ViewManager * option ShaderManager),
    let vm' := (view_run events s).1 in
    match last_mouse events with
    | Some (x, y) => gLastX vm' = x /\ gLastY vm' = y /\ gFirstMouse vm' = false
    | None => gLastX vm' = gLastX s.1 /\ gLastY vm' = gLastY s.1 /\
              gFirstMouse vm' = gFirstMouse s.1
    end /\
    match last_frame events with
    | Some t => gLastFrame vm' = t
    | None => gLastFrame vm' = gLastFrame s.1
    end /\
    (windowShouldClose s.1 = true -> windowShouldClose vm' = true).
Proof.
  induction events as [|e events IH]; intros s.
  - simpl. repeat split; trivial.
  - change (view_run (e :: events) s) with (view_run events (view_step s e)).
    destruct (IH (view_step s e)) as (Hm & Hf & Hc). cbv zeta.
    set (s' := view_step s e) in *.
    destruct e as [x y | t keys]; cbn [last_mouse last_frame].
    + assert (Hs : gLastX s'.1 = x /\ gLastY s'.1 = y /\
                   gFirstMouse s'.1 = false /\
                   gLastFrame s'.1 = gLastFrame s.1 /\
                   windowShouldClose s'.1 = windowShouldClose s.1).
      { subst s'. cbn [view_step fst snd]. rewrite Mouse_Position_Callback_eq.
        repeat split; reflexivity. }
      destruct Hs as (HX & HY & HF & HT & HC).
      split; [|split].
      * destruct (last_mouse events) as [[x' y']|]; [exact Hm|].
        destruct Hm as (Ha & Hb & Hd). rewrite Ha, Hb, Hd. auto.
      * destruct (last_frame events); [exact Hf | congruence].
      * intros H. apply Hc. congruence.
    + assert (Hs : gLastX s'.1 = gLastX s.1 /\ gLastY s'.1 = gLastY s.1 /\
                   gFirstMouse s'.1 = gFirstMouse s.1 /\
                   gLastFrame s'.1 = t /\
                   windowShouldClose s'.1 =
                     keys GLFW_KEY_ESCAPE || windowShouldClose s.1).
      { subst s'. cbn [view_step]. rewrite PrepareSceneView_state.
        rewrite ProcessKeyboardEvents_close.
        rewrite (ProcessKeyboardEvents_preserves gLastX) by reflexivity.
        rewrite (ProcessKeyboardEvents_preserves gLastY) by reflexivity.
        rewrite (ProcessKeyboardEvents_preserves gFirstMouse) by reflexivity.
        rewrite (ProcessKeyboardEvents_preserves gLastFrame) by reflexivity.
        repeat split; reflexivity. }
      destruct Hs as (HX & HY & HF & HT & HC).
      split; [|split].
      * destruct (last_mouse events) as [[x' y']|]; [exact Hm|].
        destruct Hm as (Ha & Hb & Hd). rewrite Ha, Hb, Hd. auto.
      * destruct (last_frame events); [exact Hf | congruence].
      * intros H. apply Hc. rewrite HC, H. apply orb_true_r.
Qed.

(** X17.  Over any run of mouse moves and frames: the reference point is
    the position of the latest mouse move and the first-mouse flag is
    cleared from the first move on (frames touch neither); the recorded
    frame time is that of the latest frame; a close request, once made,
    stays; and the state of the view manager is the same whether its shader
    manager is NULL or not, a NULL one staying NULL. *)
Theorem view_run_invariants :
  forall (events : list ViewEvent) (vm : ViewManager) (sh : ShaderManager),
    let vm' := (view_run events (vm, Some sh)).1 in
    match last_mouse events with
    | Some (x, y) => gLastX vm' = x /\ gLastY vm' = y /\ gFirstMouse vm' = false
    | None => gLastX vm' = gLastX vm /\ gLastY vm' = gLastY vm /\
              gFirstMouse vm' = gFirstMouse vm
    end /\
    match last_frame events with
    | Some t => gLastFrame vm' = t
    | None => gLastFrame vm' = gLastFrame vm
    end /\
    (if windowShouldClose vm then windowShouldClose vm' = true else True) /\
    view_run events (vm, None) = (vm', None).
Proof.
  intros events vm sh vm'. subst vm'.
  destruct (view_run_fields events (vm, Some sh)) as (Hm & Hf & Hc).
  split; [exact Hm|]. split; [exact Hf|]. split.
  - destruct (windowShouldClose vm) eqn:E; [|exact I]. now apply Hc.
  - clear Hm Hf Hc. revert vm sh.
    induction events as [|e events IH]; intros vm sh; [reflexivity|].
    change (view_run (e :: events) (vm, None))
      with (view_run events (view_step (vm, None) e)).
    change (view_run (e :: events) (vm, Some sh))
      with (view_run events (view_step (vm, Some sh) e)).
    rewrite (view_step_NULL e vm (Some sh)).
    destruct (view_step (vm, Some sh) e) as [vm1 [sh1|]] eqn:E.
    + apply IH.
    + exfalso. destruct e as [x y | t keys]; [discriminate|].
      unfold view_step, PrepareSceneView in E. discriminate.
Qed.

End ViewManagerProperties.

(** * Preparing and rendering the scene *)

Section Preparing.
Local Open Scope Z_scope.

Variable stbi_load : string -> option Image.

(** Below the capacity a load returns whether the file was accepted, and
    appends an entry exactly then. *)
Lemma CreateGLTexture_cases (filename tag : string) (sm : SceneManager)
    (gl : GLState) :
  registry_ok sm -> m_loadedTextures sm < Z.of_nat MAX_TEXTURES ->
  exists sm' gl',
    CreateGLTexture stbi_load filename tag sm gl
      = Done (decodes stbi_load filename, sm', gl') /\
    registry_ok sm' /\
    m_pShaderManager sm' = m_pShaderManager sm /\
    m_objectMaterials sm' = m_objectMaterials sm /\
    loaded sm' =
      loaded sm ++ (if decodes stbi_load filename
                    then [Tex.mk (gl_next_name gl) tag] else []) /\
    m_loadedTextures sm' =
      m_loadedTextures sm + (if decodes stbi_load filename then 1 else 0).
Proof.
  intros Hok Hlt. unfold decodes.
  destruct (stbi_load filename) as [image|] eqn:Hload.
  - destruct (Z.eqb_spec (img_channels image) 3) as [H3|H3];
      [|destruct (Z.eqb_spec (img_channels image) 4) as [H4|H4]]; simpl.
    + destruct (CreateGLTexture_registers stbi_load filename tag image sm gl
                  Hok Hlt Hload (or_introl H3))
        as (sm' & gl' & Hrun & Hl & Hn & Hok').
      exists sm', gl'. repeat split; try assumption; try apply Hok'.
      all: unfold CreateGLTexture in Hrun; rewrite Hload in Hrun;
        cbv zeta in Hrun; unfold glGenTextures in Hrun.
      all: rewrite H3 in Hrun; simpl in Hrun.
      all: destruct (array_get (m_textureIDs sm) (m_loadedTextures sm)); simpl in Hrun; [|discriminate].
      all: destruct (array_set (m_textureIDs sm) (m_loadedTextures sm) _); simpl in Hrun; [|discriminate].
      all: destruct (array_get _ (m_loadedTextures sm)); simpl in Hrun; [|discriminate].
      all: destruct (array_set _ (m_loadedTextures sm) _); simpl in Hrun; [|discriminate].
      all: injection Hrun as <- _; reflexivity.
    + destruct (CreateGLTexture_registers stbi_load filename tag image sm gl
                  Hok Hlt Hload (or_intror H4))
        as (sm' & gl' & Hrun & Hl & Hn & Hok').
      exists sm', gl'. repeat split; try assumption; try apply Hok'.
      all: unfold CreateGLTexture in Hrun; rewrite Hload in Hrun;
        cbv zeta in Hrun; unfold glGenTextures in Hrun.
      all: rewrite H4 in Hrun; simpl in Hrun.
      all: destruct (array_get (m_textureIDs sm) (m_loadedTextures sm)); simpl in Hrun; [|discriminate].
      all: destruct (array_set (m_textureIDs sm) (m_loadedTextures sm) _); simpl in Hrun; [|discriminate].
      all: destruct (array_get _ (m_loadedTextures sm)); simpl in Hrun; [|discriminate].
      all: destruct (array_set _ (m_loadedTextures sm) _); simpl in Hrun; [|discriminate].
      all: injection Hrun as <- _; reflexivity.
    + eexists sm, _.
      split; [now apply (CreateGLTexture_rejects stbi_load filename tag image)|].
      rewrite app_nil_r. repeat split; try apply Hok; lia.
  - exists sm, gl. unfold CreateGLTexture. rewrite Hload, app_nil_r.
    repeat split; try apply Hok; lia.
Qed.

End Preparing.

Lemma SceneManager_new_ok (sh : option ShaderManager) :
  registry_ok (SceneManager_new sh).
Proof. split; [reflexivity | simpl; unfold MAX_TEXTURES; lia]. Qed.

Lemma LoadSceneTextures_loaded (stbi_load : string -> option Image)
    (sh : option ShaderManager) (gl : GLState) :
  exists sm' gl1 gl2,
    LoadSceneTextures stbi_load (SceneManager_new sh) gl
      = Done (sm', mkGL (gl_next_name gl2)
                        (gl_calls gl2 ++ bind_calls 0 (loaded sm'))) /\
    registry_ok sm' /\
    m_pShaderManager sm' = sh /\ m_objectMaterials sm' = [] /\
    loaded sm' =
      (if decodes stbi_load "textures/marbletexture.jpg"
       then [Tex.mk (gl_next_name gl) "marble"] else []) ++
      (if decodes stbi_load "textures/woodtexture.jpg"
       then [Tex.mk (gl_next_name gl1) "wood"] else []) /\
    m_loadedTextures sm' =
      ((if decodes stbi_load "textures/marbletexture.jpg" then 1 else 0) +
       (if decodes stbi_load "textures/woodtexture.jpg" then 1 else 0))%Z.
Proof.
  destruct (CreateGLTexture_cases stbi_load "textures/marbletexture.jpg"
              "marble" (SceneManager_new sh) gl (SceneManager_new_ok sh))
    as (sm1 & gl1 & Hrun1 & Hok1 & Hsh1 & Hm1 & Hl1 & Hn1).
  { simpl. unfold MAX_TEXTURES. lia. }
  destruct (CreateGLTexture_cases stbi_load "textures/woodtexture.jpg"
              "wood" sm1 gl1 Hok1)
    as (sm2 & gl2 & Hrun2 & Hok2 & Hsh2 & Hm2 & Hl2 & Hn2).
  { rewrite Hn1. simpl. unfold MAX_TEXTURES.
    destruct (decodes stbi_load "textures/marbletexture.jpg"); lia. }
  exists sm2, gl1, gl2. unfold LoadSceneTextures.
  rewrite Hrun1. cbn [mbind outcome_bind fst snd]. rewrite Hrun2.
  cbn [mbind outcome_bind fst snd].
  rewrite (BindGLTextures_units sm2 gl2 Hok2). cbn [mbind outcome_bind].
  split; [reflexivity|]. split; [exact Hok2|].
  split; [now rewrite Hsh2, Hsh1|]. split; [now rewrite Hm2, Hm1|].
  split; [now rewrite Hl2, Hl1 | now rewrite Hn2, Hn1].
Qed.

(** X18.  [LoadSceneTextures] on an empty registry always returns, and a
    file that is not accepted costs no slot: "marble" is in slot 0 when its
    file is accepted and absent (-1) otherwise; "wood" is in slot 1 after
    an accepted marble, in slot 0 after a rejected one, and absent when its
    own file is rejected.  The entries loaded are bound last, entry i on
    unit i. *)
Theorem LoadSceneTextures_slots :
  forall (stbi_load : string -> option Image) (sh : option ShaderManager)
         (gl : GLState),
    exists sm' gl',
      LoadSceneTextures stbi_load (SceneManager_new sh) gl = Done (sm', gl') /\
      registry_ok sm' /\
      m_loadedTextures sm' =
        ((if decodes stbi_load "textures/marbletexture.jpg" then 1 else 0) +
         (if decodes stbi_load "textures/woodtexture.jpg" then 1 else 0))%Z /\
      FindTextureSlot "marble" sm' =
        Done (if decodes stbi_load "textures/marbletexture.jpg"
              then 0 else -1)%Z /\
      FindTextureSlot "wood" sm' =
        Done (if decodes stbi_load "textures/woodtexture.jpg"
              then (if decodes stbi_load "textures/marbletexture.jpg"
                    then 1 else 0)
              else -1)%Z /\
      exists earlier, gl_calls gl' = earlier ++ bind_calls 0 (loaded sm').
Proof.
  intros stbi_load sh gl.
  destruct (LoadSceneTextures_loaded stbi_load sh gl)
    as (sm' & gl1 & gl2 & Hrun & Hok & _ & _ & Hl & Hn).
  eexists sm', _. split; [exact Hrun|]. split; [exact Hok|].
  split; [exact Hn|].
  assert (Hmiss : forall l : list TEXTURE_INFO, forall tag,
            Forall (fun e => Tex.tag e <> tag) l ->
            forall j e', l !! j = Some e' -> Tex.tag e' <> tag).
  { intros l tag HF j e' He'. rewrite Forall_forall in HF. apply HF.
    eapply list_elem_of_lookup_2, He'. }
  assert (Hhit0 : forall tag e l, Tex.tag e = tag ->
            first_texture_at tag (e :: l) 0 e).
  { intros tag e l Ht. repeat split; [exact Ht|]. intros j e' Hj. lia. }
  assert (Hhit1 : forall tag e0 e l, Tex.tag e0 <> tag -> Tex.tag e = tag ->
            first_texture_at tag (e0 :: e :: l) 1 e).
  { intros tag e0 e l H0 Ht. repeat split; [exact Ht|]. intros j e' Hj.
    destruct j as [|j]; [|lia]. simpl. now intros [= <-]. }
  split; [|split; [|simpl; eauto]].
  - destruct (decodes stbi_load "textures/marbletexture.jpg").
    + apply (FindTextureSlot_hit "marble" sm' 0 (Tex.mk (gl_next_name gl) "marble") Hok).
      rewrite Hl. now apply Hhit0.
    + apply (FindTextureSlot_miss "marble" sm' Hok). rewrite Hl.
      apply Hmiss.
      destruct (decodes stbi_load "textures/woodtexture.jpg"); simpl;
        repeat constructor; discriminate.
  - destruct (decodes stbi_load "textures/woodtexture.jpg").
    + destruct (decodes stbi_load "textures/marbletexture.jpg").
      * apply (FindTextureSlot_hit "wood" sm' 1 (Tex.mk (gl_next_name gl1) "wood") Hok).
        rewrite Hl. now apply Hhit1.
      * apply (FindTextureSlot_hit "wood" sm' 0 (Tex.mk (gl_next_name gl1) "wood") Hok).
        rewrite Hl. now apply Hhit0.
    + apply (FindTextureSlot_miss "wood" sm' Hok). rewrite Hl.
      apply Hmiss.
      destruct (decodes stbi_load "textures/marbletexture.jpg"); simpl;
        repeat constructor; discriminate.
Qed.



(** The scene manager with the empty registry is the constructor's result
    when the count it finds is 0. *)
Lemma SceneManager_new_constructed (sh : option ShaderManager) :
  SceneManager_new sh =
  SceneManager_constructor sh (replicate MAX_TEXTURES (Tex.mk 0 "")) 0.
Proof. reflexivity. Qed.


(** ** What a frame draws *)

Lemma uniforms_lookup_app (ws : ShaderManager) :
  forall (sh : ShaderManager) (name : string),
    uniforms (sh ++ ws) !! name =
    match last_write name ws with
    | Some v => Some v
    | None => uniforms sh !! name
    end.
Proof.
  induction ws as [|[k v] ws IH]; intros sh name.
  - now rewrite app_nil_r.
  - change (sh ++ (k, v) :: ws) with (sh ++ [(k, v)] ++ ws).
    rewrite app_assoc, IH. cbn [last_write].
    destruct (last_write name ws) as [v'|]; [reflexivity|].
    rewrite uniforms_snoc.
    destruct (String.eqb_spec k name) as [->|Hne].
    + apply lookup_insert_eq.
    + now apply lookup_insert_ne.
Qed.

Lemma last_write_outside (names : list string) (name : string)
    (ws : ShaderManager) :
  forallb (fun kv : string * uniform_value => existsb (String.eqb kv.1) names) ws
    = true ->
  name ∉ names -> last_write name ws = None.
Proof.
  intros Hall Hname. induction ws as [|[k v] ws IH]; [reflexivity|].
  cbn [forallb fst] in Hall. apply andb_prop in Hall as [Hk Hall].
  cbn [last_write]. rewrite (IH Hall).
  destruct (String.eqb_spec k name) as [->|Hne]; [|reflexivity].
  exfalso. apply Hname. apply existsb_exists in Hk as (x & Hin & Hx).
  apply String.eqb_eq in Hx as ->. now apply list_elem_of_In.
Qed.

Lemma write_all_app (ws sh : ShaderManager) : write_all ws sh = sh ++ ws.
Proof.
  revert sh. induction ws as [|[k v] ws IH]; intros sh; simpl.
  - now rewrite app_nil_r.
  - unfold write_all in *. simpl. rewrite IH. unfold set_uniform.
    now rewrite <- app_assoc.
Qed.

Lemma write_all_lookup (name : string) (ws sh : ShaderManager)
    (v : uniform_value) :
  last_write name ws = Some v -> uniforms (write_all ws sh) !! name = Some v.
Proof. intros H. now rewrite write_all_app, uniforms_lookup_app, H. Qed.

Lemma write_all_outside (names : list string) (name : string)
    (ws sh : ShaderManager) :
  forallb (fun kv : string * uniform_value => existsb (String.eqb kv.1) names) ws
    = true ->
  name ∉ names ->
  uniforms (write_all ws sh) !! name = uniforms sh !! name.
Proof.
  intros Hall Hname.
  now rewrite write_all_app, uniforms_lookup_app,
    (last_write_outside names name ws Hall Hname).
Qed.

Lemma cons_eq {A : Type} (x x' : A) (l l' : list A) :
  x = x' -> l = l' -> x :: l = x' :: l'.
Proof. now intros -> ->. Qed.

Lemma summary_eq (m : Mesh) (a a' b b' c c' : option uniform_value) :
  a = a' -> b = b' -> c = c' -> Some (m, a, b, c) = Some (m, a', b', c').
Proof. now intros -> -> ->. Qed.

(** The writes of a chain of [set_uniform] calls, oldest first. *)
Ltac writes_of chain acc :=
  lazymatch chain with
  | set_uniform ?k ?v ?rest => writes_of rest (@cons (string * uniform_value) (k, v) acc)
  | _ => acc
  end.

(** X20.  On the prepared scene [RenderScene] always returns, whatever
    the shader held before and whatever its uninitialised locals hold: it
    leaves the registry and the catalogue alone, writes per-object uniforms
    only, and issues 14 draw calls.  Each draw is made with the flag,
    sampler and material listed: the table top with marble (slot 0) and the
    wood material; the four legs with the wood texture (slot 1) and the
    material left by the table top; the flat-coloured objects with the
    use-texture flag off (the sampler is stale and unused); no draw is made
    with the sentinel sampler -1. *)
Theorem RenderScene_draws :
  forall (sh : ShaderManager) (uninitialised : nat -> OBJECT_MATERIAL)
         (meshes : list MeshCall),
    exists sh' draws,
      RenderScene uninitialised (prepared_scene sh) meshes
        = Done (prepared_scene sh', meshes ++ draws) /\
      draw_summary <$> draws =
        [textured BoxMesh 0 woodMaterial;
         textured CylinderMesh 1 woodMaterial;
         textured CylinderMesh 1 woodMaterial;
         textured CylinderMesh 1 woodMaterial;
         textured CylinderMesh 1 woodMaterial;
         flat_coloured CylinderMesh 1 plasticMaterial;
         textured TaperedCylinderMesh 0 stoneMaterial;
         flat_coloured BoxMesh 0 plasticMaterial;
         textured BoxMesh 0 plasticMaterial;
         textured BoxMesh 1 plasticMaterial;
         flat_coloured BoxMesh 1 plasticMaterial;
         flat_coloured CylinderMesh 1 plasticMaterial;
         flat_coloured CylinderMesh 1 plasticMaterial;
         flat_coloured CylinderMesh 1 plasticMaterial] /\
      forall name, name ∉ per_object_uniforms ->
                   uniforms sh' !! name = uniforms sh !! name.
Proof.
  intros sh uninitialised meshes. eexists _, _. split; [|split].
  - cbv -[Rplus Rmult Rminus Rdiv Ropp Rinv IZR Q2R cos sin sqrt PI modelView
          set_uniform DrawMesh].
    unfold DrawMesh. cbn [m_pShaderManager].
    rewrite <- !app_assoc. reflexivity.
  - cbn [fmap list_fmap app draw_summary].
    unfold textured, flat_coloured.
    repeat (apply cons_eq; [apply summary_eq|]); try reflexivity.
    all: lazymatch goal with
         | |- uniforms ?chain !! ?k = Some ?v =>
             let ws := writes_of chain (@nil (string * uniform_value)) in
             exact (write_all_lookup k ws sh v eq_refl)
         end.
  - intros name Hname.
    lazymatch goal with
    | |- uniforms ?chain !! _ = _ =>
        let ws := writes_of chain (@nil (string * uniform_value)) in
        exact (write_all_outside per_object_uniforms name ws sh eq_refl Hname)
    end.
Qed.
